(** * SensorCapture: the sensor-hub session driver of src/sensorcapture.cpp

    A shallow embedding of the class [sl_drv::SensorCapture]: the device
    registry ([enumerateDevices]), the session life cycle ([init],
    [startCapture], [enableDataStream], [reset]), the keep-alive ping and
    the body of the capture loop ([grabThreadFunc]).

    The HID transport (hidapi) is an external collaborator: its answers are
    supplied by an environment record, and every call made to it is
    appended to a ghost history kept next to the object's members.  The
    header that declares the wire constants, the [SensData] layout and the
    scale factors is not part of the translated sources; those enter as the
    fields of the class [Firmware]. *)

From Stdlib Require Import ZArith QArith Qround Lia Ascii String.
From stdpp Require Import gmap strings list pretty sorting.

Local Open Scope Z_scope.

(** ** Constants and arithmetic declared by the header *)

(** The members of this class are what sensorcapture.cpp takes from
    sensorcapture.hpp: the floating-point type of the published samples
    with the conversion from a raw integer, the product and the conversion
    back to the 64-bit timestamp, the scale factors, the report tags, the
    size of the packed [SensData] record and the status codes. *)
Class Firmware := {
  fp : Type;
  fp_of_int : Z → fp;
  fp_mul : fp → fp → fp;
  fp_to_uint64 : fp → Z;
  TS_SCALE : fp;
  ACC_SCALE : fp;
  GYRO_SCALE : fp;
  TEMP_SCALE : fp;
  MAG_SCALE : fp;
  PRESS_SCALE_NEW : fp;
  HUMID_SCALE_NEW : fp;
  SL_USB_VENDOR : Z;
  REP_ID_SENSOR_STREAM_STATUS : Z;
  REP_ID_SENSOR_DATA : Z;
  REP_ID_REQUEST_SET : Z;
  RQ_CMD_PING : Z;
  sizeof_SensData : Z;
  MAG_NEW_VAL : Z;
  ENV_NEW_VAL : Z;
  TEMP_NOT_VALID : Z
}.

(** ** Transport data *)

(** A non-null device pointer; [option handle] is the pointer member. *)
Definition handle := positive.

(** One node of the list returned by [hid_enumerate]; [serial_number] is
    the narrow string produced by [wstr2str]. *)
Record hid_device_info := {
  vendor_id : Z;
  product_id : Z;
  release_number : Z;
  serial_number : string
}.

(** The 65-byte report buffer seen through the packed [SensData] record,
    as the loop reads it after casting [buf]; [struct_id] is the first
    byte of the buffer. *)
Record SensData := {
  struct_id : Z;
  imu_not_valid : Z;
  timestamp : Z;
  gX : Z; gY : Z; gZ : Z;
  aX : Z; aY : Z; aZ : Z;
  imu_temp : Z;
  mag_valid : Z;
  mX : Z; mY : Z; mZ : Z;
  env_valid : Z;
  temp : Z;
  press : Z;
  humid : Z;
  temp_cam_left : Z;
  temp_cam_right : Z
}.

(** What one [hid_read_timeout] delivers: the return value (0 on a
    timeout, -1 on an error, else the number of bytes read) and the buffer
    contents afterwards. *)
Record hid_read := {
  res : Z;
  report : SensData
}.

(** The answers of the transport during one operation. *)
Record hid_env := {
  hid_init_result : Z;
  hid_devices : list hid_device_info;
  hid_open_result : Z → string → option handle;
  hid_send_feature_result : list Z → Z;
  hid_error : string
}.

Inductive level := INFO | WARNING | ERROR.

(** The ghost history: calls to the transport, thread operations, entries
    to [sendPing] and console messages, oldest first. *)
Inductive event :=
| hid_init_call
| hid_enumerate_call (vendor product : Z)
| hid_free_enumeration_call
| hid_open_call (vendor pid : Z) (serial : string)
| hid_send_feature_report_call (h : handle) (buf : list Z)
| hid_read_timeout_call (h : option handle) (len ms : Z)
| hid_set_nonblocking_call (h : option handle) (nonblock : Z)
| hid_close_call (h : handle)
| thread_start
| thread_join
| sendPing_call
| message (l : level) (msg : string)
| device_found (d : hid_device_info) (fw_major fw_minor : Z).

(** ** std::stoi *)

Inductive exn := invalid_argument | out_of_range.

(** The result of a member function: a normal return, an exception that
    leaves through the caller, or [std::terminate]. *)
Inductive outcome (A : Type) :=
| Ret (a : A)
| Throw (e : exn)
| Terminate.
Arguments Ret {A} a.
Arguments Throw {A} e.
Arguments Terminate {A}.

Definition INT_MIN : Z := -2147483648.
Definition INT_MAX : Z := 2147483647.

Definition isspace (c : ascii) : bool :=
  let n := Z.of_N (N_of_ascii c) in
  (n =? 32) || ((9 <=? n) && (n <=? 13)).

Definition isdigit (c : ascii) : bool :=
  let n := Z.of_N (N_of_ascii c) in
  (48 <=? n) && (n <=? 57).

Definition digit_value (c : ascii) : Z := Z.of_N (N_of_ascii c) - 48.

Fixpoint skip_spaces (s : string) : string :=
  match s with
  | String c s' => if isspace c then skip_spaces s' else s
  | EmptyString => s
  end.

Fixpoint read_digits (acc : Z) (s : string) : Z :=
  match s with
  | String c s' =>
      if isdigit c then read_digits (10 * acc + digit_value c) s' else acc
  | EmptyString => acc
  end.

(** An optional sign in front of the digits: the flag says "negative". *)
Definition read_sign (s : string) : bool * string :=
  match s with
  | String "-" s' => (true, s')
  | String "+" s' => (false, s')
  | _ => (false, s)
  end.

(** [std::stoi(str)] in base 10: leading white space is skipped, an
    optional sign is read, then the longest run of digits; what follows
    the digits is ignored.  No digit at all throws [invalid_argument], a
    value that does not fit an [int] throws [out_of_range]. *)
Definition stoi (s : string) : exn + Z :=
  let '(neg, ds) := read_sign (skip_spaces s) in
  match ds with
  | String c _ =>
      if isdigit c then
        let v := read_digits 0 ds in
        let v := if neg then - v else v in
        if (INT_MIN <=? v) && (v <=? INT_MAX) then inr v else inl out_of_range
      else inl invalid_argument
  | EmptyString => inl invalid_argument
  end.

(** [std::to_string(int)]. *)
Definition to_string (n : Z) : string := pretty n.

(** ** std::map<int,uint16_t> *)

(** The registry [mSlDevPid] is a [gmap Z Z] from serial number to product
    id.  [map_begin] is the entry [begin()] points to, the one with the
    least key. *)
Definition least_entry (a b : Z * Z) : Z * Z :=
  if b.1 <? a.1 then b else a.

Definition map_begin (m : gmap Z Z) : option (Z * Z) :=
  foldr (λ kv acc, Some (from_option (least_entry kv) kv acc)) None
        (map_to_list m).

(** [m[k]] read as an rvalue: a missing key is inserted with the value 0. *)
Definition map_index (m : gmap Z Z) (k : Z) : Z * gmap Z Z :=
  match m !! k with
  | Some v => (v, m)
  | None => (0, <[k := 0]> m)
  end.

(** The conversion of [size()] to the [int] that is returned. *)
Definition to_int (n : Z) : Z := (n + 2147483648) mod 4294967296 - 2147483648.

(** ** The published samples *)

Module IMU.
Record data `{Firmware} := {
  valid : bool;
  timestamp : Z;
  aX : fp; aY : fp; aZ : fp;
  gX : fp; gY : fp; gZ : fp;
  temp : fp
}.
Definition set_valid `{Firmware} (b : bool) (d : data) : data :=
  {| valid := b; timestamp := timestamp d;
     aX := aX d; aY := aY d; aZ := aZ d;
     gX := gX d; gY := gY d; gZ := gZ d; temp := temp d |}.
End IMU.

Module MAG.
Record data `{Firmware} := {
  valid : Z;
  timestamp : Z;
  mX : fp; mY : fp; mZ : fp
}.
End MAG.

Module ENV.
Record data `{Firmware} := {
  valid : Z;
  timestamp : Z;
  temp : fp;
  press : fp;
  humid : fp
}.
End ENV.

Module CAMTEMP.
Record data `{Firmware} := {
  valid : bool;
  timestamp : Z;
  temp_left : fp;
  temp_right : fp
}.
Definition set_valid `{Firmware} (b : bool) (d : data) : data :=
  {| valid := b; timestamp := timestamp d;
     temp_left := temp_left d; temp_right := temp_right d |}.
End CAMTEMP.

(** ** The object *)

(** The data members of [SensorCapture] that sensorcapture.cpp uses.
    [mGrabThread] holds [mGrabThread.joinable()]; [history] is the ghost
    history of events. *)
Record SensorCapture `{Firmware} := {
  verbose : bool;
  mSlDevPid : gmap Z Z;
  mDevHandle : option handle;
  mInitialized : bool;
  mStopCapture : bool;
  mNewData : bool;
  mGrabRunning : bool;
  mGrabThread : bool;
  mLastIMUData : IMU.data;
  mLastMAGData : MAG.data;
  mLastENVData : ENV.data;
  mLastCamTempData : CAMTEMP.data;
  history : list event
}.

Section Members.
Context `{Firmware}.

Definition set_mSlDevPid (m : gmap Z Z) (s : SensorCapture) : SensorCapture :=
  {| verbose := verbose s; mSlDevPid := m; mDevHandle := mDevHandle s;
     mInitialized := mInitialized s; mStopCapture := mStopCapture s;
     mNewData := mNewData s; mGrabRunning := mGrabRunning s;
     mGrabThread := mGrabThread s; mLastIMUData := mLastIMUData s;
     mLastMAGData := mLastMAGData s; mLastENVData := mLastENVData s;
     mLastCamTempData := mLastCamTempData s; history := history s |}.

Definition set_mDevHandle (h : option handle) (s : SensorCapture) : SensorCapture :=
  {| verbose := verbose s; mSlDevPid := mSlDevPid s; mDevHandle := h;
     mInitialized := mInitialized s; mStopCapture := mStopCapture s;
     mNewData := mNewData s; mGrabRunning := mGrabRunning s;
     mGrabThread := mGrabThread s; mLastIMUData := mLastIMUData s;
     mLastMAGData := mLastMAGData s; mLastENVData := mLastENVData s;
     mLastCamTempData := mLastCamTempData s; history := history s |}.

Definition set_mInitialized (b : bool) (s : SensorCapture) : SensorCapture :=
  {| verbose := verbose s; mSlDevPid := mSlDevPid s; mDevHandle := mDevHandle s;
     mInitialized := b; mStopCapture := mStopCapture s;
     mNewData := mNewData s; mGrabRunning := mGrabRunning s;
     mGrabThread := mGrabThread s; mLastIMUData := mLastIMUData s;
     mLastMAGData := mLastMAGData s; mLastENVData := mLastENVData s;
     mLastCamTempData := mLastCamTempData s; history := history s |}.

Definition set_mStopCapture (b : bool) (s : SensorCapture) : SensorCapture :=
  {| verbose := verbose s; mSlDevPid := mSlDevPid s; mDevHandle := mDevHandle s;
     mInitialized := mInitialized s; mStopCapture := b;
     mNewData := mNewData s; mGrabRunning := mGrabRunning s;
     mGrabThread := mGrabThread s; mLastIMUData := mLastIMUData s;
     mLastMAGData := mLastMAGData s; mLastENVData := mLastENVData s;
     mLastCamTempData := mLastCamTempData s; history := history s |}.

Definition set_mNewData (b : bool) (s : SensorCapture) : SensorCapture :=
  {| verbose := verbose s; mSlDevPid := mSlDevPid s; mDevHandle := mDevHandle s;
     mInitialized := mInitialized s; mStopCapture := mStopCapture s;
     mNewData := b; mGrabRunning := mGrabRunning s;
     mGrabThread := mGrabThread s; mLastIMUData := mLastIMUData s;
     mLastMAGData := mLastMAGData s; mLastENVData := mLastENVData s;
     mLastCamTempData := mLastCamTempData s; history := history s |}.

Definition set_mGrabRunning (b : bool) (s : SensorCapture) : SensorCapture :=
  {| verbose := verbose s; mSlDevPid := mSlDevPid s; mDevHandle := mDevHandle s;
     mInitialized := mInitialized s; mStopCapture := mStopCapture s;
     mNewData := mNewData s; mGrabRunning := b;
     mGrabThread := mGrabThread s; mLastIMUData := mLastIMUData s;
     mLastMAGData := mLastMAGData s; mLastENVData := mLastENVData s;
     mLastCamTempData := mLastCamTempData s; history := history s |}.

Definition set_mGrabThread (b : bool) (s : SensorCapture) : SensorCapture :=
  {| verbose := verbose s; mSlDevPid := mSlDevPid s; mDevHandle := mDevHandle s;
     mInitialized := mInitialized s; mStopCapture := mStopCapture s;
     mNewData := mNewData s; mGrabRunning := mGrabRunning s;
     mGrabThread := b; mLastIMUData := mLastIMUData s;
     mLastMAGData := mLastMAGData s; mLastENVData := mLastENVData s;
     mLastCamTempData := mLastCamTempData s; history := history s |}.

Definition set_mLastIMUData (d : IMU.data) (s : SensorCapture) : SensorCapture :=
  {| verbose := verbose s; mSlDevPid := mSlDevPid s; mDevHandle := mDevHandle s;
     mInitialized := mInitialized s; mStopCapture := mStopCapture s;
     mNewData := mNewData s; mGrabRunning := mGrabRunning s;
     mGrabThread := mGrabThread s; mLastIMUData := d;
     mLastMAGData := mLastMAGData s; mLastENVData := mLastENVData s;
     mLastCamTempData := mLastCamTempData s; history := history s |}.

Definition set_mLastMAGData (d : MAG.data) (s : SensorCapture) : SensorCapture :=
  {| verbose := verbose s; mSlDevPid := mSlDevPid s; mDevHandle := mDevHandle s;
     mInitialized := mInitialized s; mStopCapture := mStopCapture s;
     mNewData := mNewData s; mGrabRunning := mGrabRunning s;
     mGrabThread := mGrabThread s; mLastIMUData := mLastIMUData s;
     mLastMAGData := d; mLastENVData := mLastENVData s;
     mLastCamTempData := mLastCamTempData s; history := history s |}.

Definition set_mLastENVData (d : ENV.data) (s : SensorCapture) : SensorCapture :=
  {| verbose := verbose s; mSlDevPid := mSlDevPid s; mDevHandle := mDevHandle s;
     mInitialized := mInitialized s; mStopCapture := mStopCapture s;
     mNewData := mNewData s; mGrabRunning := mGrabRunning s;
     mGrabThread := mGrabThread s; mLastIMUData := mLastIMUData s;
     mLastMAGData := mLastMAGData s; mLastENVData := d;
     mLastCamTempData := mLastCamTempData s; history := history s |}.

Definition set_mLastCamTempData (d : CAMTEMP.data) (s : SensorCapture) : SensorCapture :=
  {| verbose := verbose s; mSlDevPid := mSlDevPid s; mDevHandle := mDevHandle s;
     mInitialized := mInitialized s; mStopCapture := mStopCapture s;
     mNewData := mNewData s; mGrabRunning := mGrabRunning s;
     mGrabThread := mGrabThread s; mLastIMUData := mLastIMUData s;
     mLastMAGData := mLastMAGData s; mLastENVData := mLastENVData s;
     mLastCamTempData := d; history := history s |}.

Definition set_history (l : list event) (s : SensorCapture) : SensorCapture :=
  {| verbose := verbose s; mSlDevPid := mSlDevPid s; mDevHandle := mDevHandle s;
     mInitialized := mInitialized s; mStopCapture := mStopCapture s;
     mNewData := mNewData s; mGrabRunning := mGrabRunning s;
     mGrabThread := mGrabThread s; mLastIMUData := mLastIMUData s;
     mLastMAGData := mLastMAGData s; mLastENVData := mLastENVData s;
     mLastCamTempData := mLastCamTempData s; history := l |}.

(** ** The monad of member functions *)

(** A member function takes the object and gives back how it ended and
    the object as it is then; an exception leaves the members as they are
    at the throw. *)
Definition M (A : Type) : Type := SensorCapture → outcome A * SensorCapture.

#[global] Instance M_ret : MRet M := λ A a s, (Ret a, s).

#[global] Instance M_bind : MBind M := λ A B k m s,
  match m s with
  | (Ret a, s') => k a s'
  | (Throw e, s') => (Throw e, s')
  | (Terminate, s') => (Terminate, s')
  end.

Definition get {A} (f : SensorCapture → A) : M A := λ s, (Ret (f s), s).
Definition modify (f : SensorCapture → SensorCapture) : M unit := λ s, (Ret tt, f s).
Definition throw {A} (e : exn) : M A := λ s, (Throw e, s).
Definition terminate {A} : M A := λ s, (Terminate, s).
Definition when (b : bool) (m : M unit) : M unit := if b then m else mret tt.

Definition emit (e : event) : M unit :=
  modify (λ s, set_history (history s ++ [e]) s).

Definition out (l : level) (msg : string) : M unit := emit (message l msg).

(** ** Device registry *)

(** The body of the [while (cur_dev)] loop for one node. *)
Definition enumerate_device (d : hid_device_info) : M unit :=
  let fw_major := Z.shiftr (release_number d) 8 in
  let fw_minor := Z.land (release_number d) 255 in
  let pid := product_id d in
  let sn_str := serial_number d in
  sn ← match stoi sn_str with
       | inl e => throw e
       | inr sn => mret sn
       end;
  m ← get mSlDevPid;
  modify (set_mSlDevPid (<[sn := pid]> m));;
  v ← get verbose;
  when v (emit (device_found d fw_major fw_minor)).

Fixpoint enumerate_loop (devs : list hid_device_info) : M unit :=
  match devs with
  | [] => mret tt
  | d :: rest => enumerate_device d;; enumerate_loop rest
  end.

Definition enumerateDevices (env : hid_env) : M Z :=
  modify (set_mSlDevPid ∅);;
  emit hid_init_call;;
  if hid_init_result env =? -1 then mret 0
  else
    emit (hid_enumerate_call SL_USB_VENDOR 0);;
    enumerate_loop (hid_devices env);;
    emit hid_free_enumeration_call;;
    m ← get mSlDevPid;
    mret (to_int (Z.of_nat (size m))).

(** ** Stream control and keep-alive *)

Definition enableDataStream (env : hid_env) (enable : bool) : M bool :=
  dev ← get mDevHandle;
  match dev with
  | None => mret false
  | Some h =>
      let buf := [REP_ID_SENSOR_STREAM_STATUS; if enable then 1 else 0] in
      emit (hid_send_feature_report_call h buf);;
      if hid_send_feature_result env buf <? 0 then
        v ← get verbose;
        when v (out WARNING
          ("Unable to set a feature report [SensStreamStatus] - " +:+ hid_error env));;
        mret false
      else mret true
  end.

Definition sendPing (env : hid_env) : M bool :=
  emit sendPing_call;;
  dev ← get mDevHandle;
  match dev with
  | None => mret false
  | Some h =>
      let buf := [REP_ID_REQUEST_SET; RQ_CMD_PING] in
      emit (hid_send_feature_report_call h buf);;
      if hid_send_feature_result env buf <? 0 then
        out WARNING
          ("Unable to send ping [REP_ID_REQUEST_SET-RQ_CMD_PING] - " +:+ hid_error env);;
        mret false
      else mret true
  end.

(** Assigning a new [std::thread] to [mGrabThread] while it is joinable
    calls [std::terminate]; otherwise the thread is started and the member
    becomes joinable. *)
Definition startCapture (env : hid_env) : M bool :=
  ok ← enableDataStream env true;
  if negb ok then mret false
  else
    j ← get mGrabThread;
    when j terminate;;
    modify (set_mGrabThread true);;
    emit thread_start;;
    mret true.

(** [reset]: [join] returns once the capture thread has left
    [grabThreadFunc]; what that thread writes meanwhile is the business of
    [grabThreadFunc] below. *)
Definition reset (env : hid_env) : M unit :=
  modify (set_mStopCapture true);;
  j ← get mGrabThread;
  when j (emit thread_join;; modify (set_mGrabThread false));;
  enableDataStream env false;;
  dev ← get mDevHandle;
  match dev with
  | Some h => emit (hid_close_call h);; modify (set_mDevHandle None)
  | None => mret tt
  end;;
  v ← get verbose;
  i ← get mInitialized;
  when (v && i) (out INFO "Device closed");;
  modify (set_mInitialized false).

(** ** The capture loop *)

(** [data->timestamp*TS_SCALE] stored into a 64-bit timestamp. *)
Definition scaled_timestamp (data : SensData) : Z :=
  fp_to_uint64 (fp_mul (fp_of_int (timestamp data)) TS_SCALE).

(** [raw*SCALE] stored into a floating-point member. *)
Definition scaled (raw : Z) (scale : fp) : fp := fp_mul (fp_of_int raw) scale.

(** The conversion of a status code to the [bool] member it is stored in. *)
Definition bool_of_status (v : Z) : bool := negb (v =? 0).

(** What the loop does with a report of the right size and tag. *)
Definition store_samples (data : SensData) : M unit :=
  (* IMU data *)
  modify (set_mLastIMUData
    {| IMU.valid := negb (imu_not_valid data =? 1);
       IMU.timestamp := scaled_timestamp data;
       IMU.aX := scaled (aX data) ACC_SCALE;
       IMU.aY := scaled (aY data) ACC_SCALE;
       IMU.aZ := scaled (aZ data) ACC_SCALE;
       IMU.gX := scaled (gX data) GYRO_SCALE;
       IMU.gY := scaled (gY data) GYRO_SCALE;
       IMU.gZ := scaled (gZ data) GYRO_SCALE;
       IMU.temp := scaled (imu_temp data) TEMP_SCALE |});;
  (* Magnetometer data *)
  (if mag_valid data =? MAG_NEW_VAL then
     modify (set_mLastMAGData
       {| MAG.valid := MAG_NEW_VAL;
          MAG.timestamp := scaled_timestamp data;
          MAG.mY := scaled (mY data) MAG_SCALE;
          MAG.mZ := scaled (mZ data) MAG_SCALE;
          MAG.mX := scaled (mX data) MAG_SCALE |})
   else
     imu ← get mLastIMUData;
     modify (set_mLastIMUData (IMU.set_valid (bool_of_status (mag_valid data)) imu)));;
  (* Environmental data *)
  (if env_valid data =? ENV_NEW_VAL then
     modify (set_mLastENVData
       {| ENV.valid := ENV_NEW_VAL;
          ENV.timestamp := scaled_timestamp data;
          ENV.temp := scaled (temp data) TEMP_SCALE;
          ENV.press := scaled (press data) PRESS_SCALE_NEW;
          ENV.humid := scaled (humid data) HUMID_SCALE_NEW |})
   else
     imu ← get mLastIMUData;
     modify (set_mLastIMUData (IMU.set_valid (bool_of_status (mag_valid data)) imu)));;
  (* Camera sensors temperature data *)
  if negb (temp_cam_left data =? TEMP_NOT_VALID) &&
     negb (temp_cam_left data =? TEMP_NOT_VALID) &&
     (env_valid data =? ENV_NEW_VAL)
  then
    modify (set_mLastCamTempData
      {| CAMTEMP.valid := true;
         CAMTEMP.timestamp := scaled_timestamp data;
         CAMTEMP.temp_left := scaled (temp_cam_left data) TEMP_SCALE;
         CAMTEMP.temp_right := scaled (temp_cam_right data) TEMP_SCALE |});;
    out INFO (to_string (scaled_timestamp data))
  else
    cam ← get mLastCamTempData;
    modify (set_mLastCamTempData (CAMTEMP.set_valid false cam)).

(** The keep-alive block at the head of the loop body: the new value of
    [ping_data_count]. *)
Definition keep_alive (env : hid_env) (ping_data_count : Z) : M Z :=
  c ← (if 400 <=? ping_data_count then sendPing env;; mret 0
       else mret ping_data_count);
  mret (c + 1).

(** One pass through the body of [while (!mStopCapture)], for the report
    [r] that [hid_read_timeout] delivers in it; the result is the value of
    [ping_data_count] afterwards.  The byte the loop writes into the
    buffer before the read is overwritten by every read of full size, and
    the buffer is not looked at after a shorter one. *)
Definition grab_iteration (env : hid_env) (r : hid_read) (ping_data_count : Z) : M Z :=
  c ← keep_alive env ping_data_count;
  modify (set_mGrabRunning true);;
  dev ← get mDevHandle;
  emit (hid_read_timeout_call dev 64 500);;
  (if res r <? sizeof_SensData then
     emit (hid_set_nonblocking_call dev 0)
   else if negb (struct_id (report r) =? REP_ID_SENSOR_DATA) then
     v ← get verbose;
     when v (out WARNING "REP_ID_SENSOR_DATA - Sensor Data type mismatch");;
     emit (hid_set_nonblocking_call dev 0)
   else
     store_samples (report r));;
  mret c.

(** The loop run for as many passes as reports are listed. *)
Fixpoint grab_loop (env : hid_env) (reads : list hid_read) (ping_data_count : Z) : M Z :=
  match reads with
  | [] => mret ping_data_count
  | r :: rest => c ← grab_iteration env r ping_data_count; grab_loop env rest c
  end.

(** The thread function, for a run whose loop makes one pass per element
    of [reads].  The loop is left because the guard reads [mStopCapture]
    as set; that store is the one [reset] makes from the owning thread. *)
Definition grabThreadFunc (env : hid_env) (reads : list hid_read) : M unit :=
  modify (set_mNewData false);;
  modify (set_mStopCapture false);;
  modify (set_mGrabRunning false);;
  grab_loop env reads 0;;
  modify (set_mStopCapture true);;
  modify (set_mGrabRunning false).

(** ** Opening a session *)

(** The key of [mSlDevPid.begin()]; the caller has checked the size. *)
Definition begin_key (m : gmap Z Z) : Z := from_option fst 0 (map_begin m).

(** The first part of [init]: the serial number to open and its decimal
    string, or [None] where [init] has returned [false] already. *)
Definition select_device (env : hid_env) (sn : Z) : M (option (Z * string)) :=
  if negb (sn =? -1) then mret (Some (sn, to_string sn))
  else
    m ← get mSlDevPid;
    (if decide (size m = 0%nat) then enumerateDevices env;; mret tt else mret tt : M unit);;
    m ← get mSlDevPid;
    if decide (size m = 0%nat) then
      out ERROR "No available ZED Mini or ZED2 cameras";;
      mret None
    else
      let sn := begin_key m in
      mret (Some (sn, to_string sn)).

(** The second part of [init], from the look-up of the product id on. *)
Definition connect (env : hid_env) (sn : Z) (sn_str : string) : M bool :=
  m ← get mSlDevPid;
  let '(pid, m') := map_index m sn in
  modify (set_mSlDevPid m');;
  emit (hid_open_call SL_USB_VENDOR pid sn_str);;
  modify (set_mDevHandle (hid_open_result env pid sn_str));;
  dev ← get mDevHandle;
  match dev with
  | None =>
      out ERROR ("Connection to device with sn " +:+ sn_str +:+ " failed");;
      mret false
  | Some _ =>
      v ← get verbose;
      when v (out INFO ("Connected to device with sn " +:+ sn_str));;
      ok ← startCapture env;
      modify (set_mInitialized ok);;
      mret true
  end.

Definition init (env : hid_env) (sn : Z) : M bool :=
  sel ← select_device env sn;
  match sel with
  | None => mret false
  | Some (sn, sn_str) => connect env sn sn_str
  end.

End Members.

(** ** Queries *)

(** The keys of a [std::map<int,uint16_t>] in the order in which its
    iterator visits them, from [begin()] to [end()]: ascending. *)
Definition map_keys (m : gmap Z Z) : list Z := merge_sort Z.le (map_to_list m).*1.

(** What [hid_get_feature_report] answers: its return value and the first
    two bytes of the buffer afterwards. *)
Record feature_reply := {
  reply_res : Z;
  reply_id : Z;
  reply_flag : Z
}.

Section Queries.
Context `{Firmware}.

Definition getDeviceList (env : hid_env) : M (list Z) :=
  m ← get mSlDevPid;
  (if decide (size m = 0%nat) then enumerateDevices env;; mret tt else mret tt : M unit);;
  m ← get mSlDevPid;
  mret (map_keys m).

(** [isDataStreamEnabled] changes no member: it is given the handle, the
    size of the [SensStreamStatus] record and the answer of the transport,
    and gives the result with the warnings it prints. *)
Definition isDataStreamEnabled (env : hid_env) (sizeof_SensStreamStatus : Z)
    (dev : option handle) (reply : feature_reply) : bool * list (level * string) :=
  match dev with
  | None => (false, [])
  | Some _ =>
      if reply_res reply <? 0 then
        (false,
         [(WARNING,
           "Unable to get a feature report [SensStreamStatus] - " +:+ hid_error env)])
      else if reply_res reply <? sizeof_SensStreamStatus then
        (false,
         [(WARNING, "SensStreamStatus size mismatch [REP_ID_SENSOR_STREAM_STATUS]")])
      else if negb (reply_id reply =? REP_ID_SENSOR_STREAM_STATUS) then
        (false,
         [(WARNING, "SensStreamStatus type mismatch [REP_ID_SENSOR_STREAM_STATUS]")])
      else (reply_flag reply =? 1, [])
  end.

End Queries.

(** How often the loop has called [hid_read_timeout]. *)
Definition is_read (e : event) : bool :=
  match e with hid_read_timeout_call _ _ _ => true | _ => false end.

Definition read_calls (l : list event) : nat := length (filter is_read l).

(** A report on which the loop takes one of its two early exits. *)
Definition transient `{Firmware} (r : hid_read) : Prop :=
  res r < sizeof_SensData ∨ struct_id (report r) ≠ REP_ID_SENSOR_DATA.

(** The IMU sample that a full sensor-data report leaves behind: the
    scaled fields, and as [valid] flag what the three assignments to it
    amount to. *)
Definition imu_of_report `{Firmware} (data : SensData) : IMU.data :=
  {| IMU.valid :=
       if (mag_valid data =? MAG_NEW_VAL) && (env_valid data =? ENV_NEW_VAL)
       then negb (imu_not_valid data =? 1)
       else bool_of_status (mag_valid data);
     IMU.timestamp := scaled_timestamp data;
     IMU.aX := scaled (aX data) ACC_SCALE;
     IMU.aY := scaled (aY data) ACC_SCALE;
     IMU.aZ := scaled (aZ data) ACC_SCALE;
     IMU.gX := scaled (gX data) GYRO_SCALE;
     IMU.gY := scaled (gY data) GYRO_SCALE;
     IMU.gZ := scaled (gZ data) GYRO_SCALE;
     IMU.temp := scaled (imu_temp data) TEMP_SCALE |}.

(** ** Vocabulary of the statements *)

Definition is_sendPing (e : event) : bool :=
  match e with sendPing_call => true | _ => false end.

(** How often [sendPing] has been entered. *)
Definition ping_calls (l : list event) : nat := length (filter is_sendPing l).

(** The registry that the devices of a list make, in list order. *)
Definition register (m : gmap Z Z) (d : hid_device_info) : gmap Z Z :=
  match stoi (serial_number d) with
  | inr sn => <[sn := product_id d]> m
  | inl _ => m
  end.

Definition registry_of (devs : list hid_device_info) : gmap Z Z :=
  foldl register ∅ devs.

(** The four published samples together. *)
Definition samples `{Firmware} (s : SensorCapture)
  : IMU.data * MAG.data * ENV.data * CAMTEMP.data :=
  (mLastIMUData s, mLastMAGData s, mLastENVData s, mLastCamTempData s).

(** The object with the [valid] flag of the IMU sample blanked. *)
Definition forget_imu_valid `{Firmware} (s : SensorCapture) : SensorCapture :=
  set_mLastIMUData (IMU.set_valid false (mLastIMUData s)) s.

(** The report [r] with another IMU validity byte. *)
Definition with_imu_not_valid (v : Z) (r : hid_read) : hid_read :=
  let d := report r in
  {| res := res r;
     report :=
       {| struct_id := struct_id d; imu_not_valid := v; timestamp := timestamp d;
          gX := gX d; gY := gY d; gZ := gZ d; aX := aX d; aY := aY d; aZ := aZ d;
          imu_temp := imu_temp d; mag_valid := mag_valid d;
          mX := mX d; mY := mY d; mZ := mZ d; env_valid := env_valid d;
          temp := temp d; press := press d; humid := humid d;
          temp_cam_left := temp_cam_left d; temp_cam_right := temp_cam_right d |} |}.

(** ** A concrete firmware and transport for running the model *)

Module Demo.

(** Exact rationals stand in for the floating-point type, with the
    product left unreduced and the integer part taken for the timestamp
    (the examples stay far below 2^64); the tags, codes and factors are
    sample values. *)
#[local] Instance firmware : Firmware := {|
  fp := Q;
  fp_of_int := inject_Z;
  fp_mul := Qmult;
  fp_to_uint64 := Qfloor;
  TS_SCALE := Qmake 625 16;
  ACC_SCALE := Qmake 1 4096;
  GYRO_SCALE := Qmake 125 4096;
  TEMP_SCALE := Qmake 1 100;
  MAG_SCALE := Qmake 1 16;
  PRESS_SCALE_NEW := Qmake 1 10000;
  HUMID_SCALE_NEW := Qmake 1 100;
  SL_USB_VENDOR := 11011;
  REP_ID_SENSOR_STREAM_STATUS := 50;
  REP_ID_SENSOR_DATA := 1;
  REP_ID_REQUEST_SET := 33;
  RQ_CMD_PING := 242;
  sizeof_SensData := 54;
  MAG_NEW_VAL := 2;
  ENV_NEW_VAL := 2;
  TEMP_NOT_VALID := -27315
|}.

Definition device (pid : Z) (sn : string) : hid_device_info :=
  {| vendor_id := 11011; product_id := pid; release_number := 515;
     serial_number := sn |}.

(** A transport that opens every device and accepts every feature
    report. *)
Definition good_env (devs : list hid_device_info) : hid_env :=
  {| hid_init_result := 0; hid_devices := devs;
     hid_open_result := λ _ _, Some 1%positive;
     hid_send_feature_result := λ _, 2;
     hid_error := "" |}.

(** The same transport, refusing every feature report. *)
Definition deaf_env (devs : list hid_device_info) : hid_env :=
  {| hid_init_result := 0; hid_devices := devs;
     hid_open_result := λ _ _, Some 1%positive;
     hid_send_feature_result := λ _, -1;
     hid_error := "Input/output error" |}.

Definition imu0 : IMU.data :=
  {| IMU.valid := false; IMU.timestamp := 0;
     IMU.aX := 0%Q; IMU.aY := 0%Q; IMU.aZ := 0%Q;
     IMU.gX := 0%Q; IMU.gY := 0%Q; IMU.gZ := 0%Q; IMU.temp := 0%Q |}.

Definition mag0 : MAG.data :=
  {| MAG.valid := 0; MAG.timestamp := 0;
     MAG.mX := 0%Q; MAG.mY := 0%Q; MAG.mZ := 0%Q |}.

Definition env0 : ENV.data :=
  {| ENV.valid := 0; ENV.timestamp := 0;
     ENV.temp := 0%Q; ENV.press := 0%Q; ENV.humid := 0%Q |}.

Definition cam0 : CAMTEMP.data :=
  {| CAMTEMP.valid := false; CAMTEMP.timestamp := 0;
     CAMTEMP.temp_left := 0%Q; CAMTEMP.temp_right := 0%Q |}.

(** A closed session that knows the devices of [reg]. *)
Definition closed (reg : gmap Z Z) : SensorCapture :=
  {| verbose := false; mSlDevPid := reg; mDevHandle := None;
     mInitialized := false; mStopCapture := false; mNewData := false;
     mGrabRunning := false; mGrabThread := false;
     mLastIMUData := imu0; mLastMAGData := mag0; mLastENVData := env0;
     mLastCamTempData := cam0; history := [] |}.

(** A session whose capture thread runs on handle 1. *)
Definition streaming (reg : gmap Z Z) : SensorCapture :=
  {| verbose := true; mSlDevPid := reg; mDevHandle := Some 1%positive;
     mInitialized := true; mStopCapture := false; mNewData := false;
     mGrabRunning := true; mGrabThread := true;
     mLastIMUData := imu0; mLastMAGData := mag0; mLastENVData := env0;
     mLastCamTempData := cam0; history := [] |}.

(** A full sensor-data report; the arguments are the fields the
    examples vary. *)
Definition frame (imu_nv mag_st env_st left right : Z) : SensData :=
  {| struct_id := 1; imu_not_valid := imu_nv; timestamp := 1600;
     gX := 8; gY := -16; gZ := 24; aX := 4096; aY := -8192; aZ := 12288;
     imu_temp := 2550; mag_valid := mag_st; mX := 16; mY := -32; mZ := 48;
     env_valid := env_st; temp := 2300; press := 10132500; humid := 4500;
     temp_cam_left := left; temp_cam_right := right |}.

Definition full_read (d : SensData) : hid_read := {| res := 64; report := d |}.

(** A read that ran into the 500 ms timeout. *)
Definition timeout_read : hid_read :=
  {| res := 0; report := frame 1 0 0 0 0 |}.

(** A read that delivered ten bytes only. *)
Definition short_read : hid_read :=
  {| res := 10; report := frame 0 2 2 2500 2500 |}.

(** The registry of the two cameras 1001 and 1002. *)
Definition two_cameras : gmap Z Z := <[1002 := 63361]> (<[1001 := 63360]> ∅).

(** A report in which every channel is fresh. *)
Definition fresh_frame : SensData := frame 0 2 2 2500 2600.

(** The session after one pass on [fresh_frame]. *)
Definition after_fresh_frame : SensorCapture :=
  (grab_iteration (good_env []) (full_read fresh_frame) 0 (streaming two_cameras)).2.

(** A device list whose second entry has the serial string abc. *)
Definition malformed_list : list hid_device_info :=
  [device 63360 "1001"; device 63361 "abc"; device 63362 "1003"].

(** A transport that hands out no handle. *)
Definition absent_env : hid_env :=
  {| hid_init_result := 0; hid_devices := [];
     hid_open_result := λ _ _, None;
     hid_send_feature_result := λ _, 2;
     hid_error := "No such device" |}.

(** The device list of the two cameras. *)
Definition two_devices : list hid_device_info :=
  [device 63360 "1001"; device 63361 "1002"].

(** A device list in which two serial strings have the value 7. *)
Definition colliding_list : list hid_device_info :=
  [device 63360 "7"; device 63361 "7abc"; device 63362 "8"].

End Demo.

(** * Properties *)

(** ** std::stoi and the registry *)

Lemma stoi_letter_first c rest :
  isspace c = false → isdigit c = false → c ≠ "-"%char → c ≠ "+"%char →
  stoi (String c rest) = inl invalid_argument.
Proof.
  intros Hs Hd Hm Hp. unfold stoi. cbn [skip_spaces]. rewrite Hs.
  unfold read_sign.
  destruct (decide (c = "-"%char)) as [->|_]; [done|].
  destruct (decide (c = "+"%char)) as [->|_]; [done|].
  assert (Hsign : ∀ s' : string,
    match c with
    | "-"%char => (true, s')
    | "+"%char => (false, s')
    | _ => (false, String c s')
    end = (false, String c s')).
  { intros s'.
    destruct c as [[] [] [] [] [] [] [] []]; try reflexivity; congruence. }
  rewrite Hsign. by rewrite Hd.
Qed.

Lemma least_entry_fold (l : list (Z * Z)) k v :
  foldr (λ kv acc, Some (from_option (least_entry kv) kv acc)) None l = Some (k, v) →
  (k, v) ∈ l ∧ ∀ k' v', (k', v') ∈ l → k ≤ k'.
Proof.
  revert k v. induction l as [|[k0 v0] l IH]; intros k v; simpl; [done|].
  destruct (foldr _ None l) as [[k1 v1]|] eqn:Hl; simpl.
  - destruct (IH k1 v1 eq_refl) as [Hin Hmin].
    unfold least_entry; simpl.
    destruct (k1 <? k0) eqn:Hlt; intros [= <- <-].
    + apply Z.ltb_lt in Hlt. split; [by right|].
      intros k' v' [[= -> ->]|Hin']%elem_of_cons; [lia|eauto].
    + apply Z.ltb_ge in Hlt. split; [by left|].
      intros k' v' [[= -> ->]|Hin']%elem_of_cons; [lia|].
      specialize (Hmin _ _ Hin'). lia.
  - intros [= <- <-]. destruct l as [|? l]; [|done].
    split; [by left|].
    intros k' v' [[= -> ->]|Hin']%elem_of_cons; [lia|by apply elem_of_nil in Hin'].
Qed.

Lemma map_begin_Some (m : gmap Z Z) k v :
  map_begin m = Some (k, v) →
  m !! k = Some v ∧ ∀ k', is_Some (m !! k') → k ≤ k'.
Proof.
  intros [Hin Hmin]%least_entry_fold. split.
  - by apply elem_of_map_to_list.
  - intros k' [v' Hv']. apply (Hmin k' v'). by apply elem_of_map_to_list.
Qed.

Lemma map_begin_None (m : gmap Z Z) : map_begin m = None → m = ∅.
Proof.
  unfold map_begin. intros Hm. apply map_to_list_empty_iff.
  destruct (map_to_list m); [done|]. simpl in Hm. done.
Qed.

Lemma ping_calls_snoc (l : list event) (e : event) :
  ping_calls (l ++ [e]) = (ping_calls l + (if is_sendPing e then 1 else 0))%nat.
Proof.
  unfold ping_calls. rewrite filter_app, length_app. f_equal.
  cbn. destruct (is_sendPing e); reflexivity.
Qed.

(** Unfolds the monad so that a member function becomes a case analysis
    on the tests it makes. *)
Ltac run :=
  repeat progress
    (unfold mbind, M_bind, mret, M_ret, get, modify, out, emit, when,
       throw, terminate; simpl).

Section Registry.
Context `{Firmware}.

Lemma enumerate_device_ok d sn s :
  stoi (serial_number d) = inr sn →
  ∃ s', enumerate_device d s = (Ret tt, s') ∧
        mSlDevPid s' = <[sn := product_id d]> (mSlDevPid s).
Proof.
  intros Hsn. unfold enumerate_device. rewrite Hsn. run.
  destruct (verbose s); eauto.
Qed.

Lemma enumerate_device_throw d e s :
  stoi (serial_number d) = inl e → enumerate_device d s = (Throw e, s).
Proof. intros He. unfold enumerate_device. rewrite He. reflexivity. Qed.

Lemma enumerate_loop_ok devs s :
  Forall (λ d, ∃ sn, stoi (serial_number d) = inr sn) devs →
  ∃ s', enumerate_loop devs s = (Ret tt, s') ∧
        mSlDevPid s' = foldl register (mSlDevPid s) devs.
Proof.
  intros Hall. revert s.
  induction Hall as [|d devs [sn Hsn] _ IH]; intros s; cbn [enumerate_loop foldl].
  - eexists; split; reflexivity.
  - destruct (enumerate_device_ok d sn s Hsn) as (s1 & Hrun & Hreg).
    destruct (IH s1) as (s2 & Hrun2 & Hreg2).
    exists s2. split.
    + unfold mbind, M_bind at 1. rewrite Hrun. exact Hrun2.
    + rewrite Hreg2, Hreg. f_equal. unfold register. by rewrite Hsn.
Qed.

Lemma enumerate_loop_throw pre d post e s :
  Forall (λ d, ∃ sn, stoi (serial_number d) = inr sn) pre →
  stoi (serial_number d) = inl e →
  ∃ s', enumerate_loop (pre ++ d :: post) s = (Throw e, s') ∧
        mSlDevPid s' = foldl register (mSlDevPid s) pre.
Proof.
  intros Hall He. revert s.
  induction Hall as [|d0 pre [sn Hsn] _ IH]; intros s; cbn [enumerate_loop foldl app].
  - exists s. split; [|reflexivity].
    unfold mbind, M_bind at 1. by rewrite (enumerate_device_throw d e s He).
  - destruct (enumerate_device_ok d0 sn s Hsn) as (s1 & Hrun & Hreg).
    destruct (IH s1) as (s2 & Hrun2 & Hreg2).
    exists s2. split.
    + unfold mbind, M_bind at 1. rewrite Hrun. exact Hrun2.
    + rewrite Hreg2, Hreg. f_equal. unfold register. by rewrite Hsn.
Qed.

(** C4 (as amended).  When the transport initialises and the device list
    holds an entry whose serial string [std::stoi] cannot convert,
    [enumerateDevices] ends with that exception, and the registry is then
    the one made by the entries in front of the first such entry: it was
    emptied on entry and is not restored. *)
Theorem enumerateDevices_malformed_serial env s pre d post e :
  hid_init_result env ≠ -1 →
  hid_devices env = pre ++ d :: post →
  Forall (λ d, ∃ sn, stoi (serial_number d) = inr sn) pre →
  stoi (serial_number d) = inl e →
  (enumerateDevices env s).1 = Throw e ∧
  mSlDevPid (enumerateDevices env s).2 = registry_of pre.
Proof.
  intros Hinit Hdevs Hpre He. unfold enumerateDevices.
  apply Z.eqb_neq in Hinit. rewrite Hdevs. run. rewrite Hinit.
  match goal with |- context [enumerate_loop _ ?s0] =>
    destruct (enumerate_loop_throw pre d post e s0 Hpre He) as (s' & Hrun & Hreg)
  end.
  rewrite Hrun. cbn [fst snd]. split; [reflexivity|].
  rewrite Hreg. reflexivity.
Qed.

End Registry.

(** ** The capture loop *)

(** Splits on the tests that are left once a member function is unfolded. *)
Ltac split_tests :=
  repeat (match goal with
          | |- context [match ?x with _ => _ end] =>
              lazymatch x with
              | context [match _ with _ => _ end] => fail
              | _ => destruct x eqn:?
              end
          end; simpl).

(** Runs the monad by computation only; meant for an object that has been
    taken apart into its members. *)
Ltac exec :=
  cbv beta iota zeta delta
    [mbind M_bind mret M_ret get modify out emit when throw terminate
     set_mSlDevPid set_mDevHandle set_mInitialized set_mStopCapture
     set_mNewData set_mGrabRunning set_mGrabThread set_mLastIMUData
     set_mLastMAGData set_mLastENVData set_mLastCamTempData set_history
     verbose mSlDevPid mDevHandle mInitialized mStopCapture mNewData
     mGrabRunning mGrabThread mLastIMUData mLastMAGData mLastENVData
     mLastCamTempData history fst snd negb].

Section Loop.
Context `{Firmware}.

Lemma grab_iteration_pings env r c s :
  ∃ s', grab_iteration env r c s = (Ret (if 400 <=? c then 1 else c + 1), s') ∧
        ping_calls (history s') =
          (ping_calls (history s) + (if (400 <=? c)%Z then 1 else 0))%nat.
Proof.
  unfold grab_iteration, keep_alive, sendPing, store_samples. run.
  destruct (400 <=? c) eqn:Hc; run; split_tests;
    (eexists; split; [reflexivity|]);
    simpl; rewrite ?ping_calls_snoc; simpl; lia.
Qed.

Lemma grab_loop_pings env reads : ∀ c s,
  0 ≤ c ≤ 400 →
  ∃ c' s', grab_loop env reads c s = (Ret c', s') ∧
    c' = (if c + Z.of_nat (length reads) =? 0 then 0
          else (c + Z.of_nat (length reads) - 1) mod 400 + 1) ∧
    Z.of_nat (ping_calls (history s')) =
      Z.of_nat (ping_calls (history s)) +
      Z.max 0 (c + Z.of_nat (length reads) - 1) / 400.
Proof.
  induction reads as [|r reads IH]; intros c s Hc.
  - exists c, s. cbn [grab_loop length]. split; [reflexivity|].
    replace (c + Z.of_nat 0) with c by lia. split.
    + destruct (c =? 0) eqn:Hz; [apply Z.eqb_eq in Hz; lia|].
      apply Z.eqb_neq in Hz.
      rewrite Z.mod_small by lia. lia.
    + destruct (decide (c = 0)) as [->|Hz].
      { rewrite Z.max_l by lia. rewrite Z.div_0_l by lia. lia. }
      rewrite Z.max_r by lia. rewrite Z.div_small by lia. lia.
  - destruct (grab_iteration_pings env r c s) as (s1 & Hstep & Hp1).
    set (c1 := if 400 <=? c then 1 else c + 1) in *.
    assert (Hc1 : 1 ≤ c1 ≤ 400).
    { subst c1. destruct (400 <=? c) eqn:Hle; [lia|]. apply Z.leb_gt in Hle. lia. }
    destruct (IH c1 s1 ltac:(lia)) as (c' & s' & Hrun & Hcnt & Hp).
    exists c', s'. split.
    { cbn [grab_loop]. unfold mbind, M_bind at 1. rewrite Hstep. exact Hrun. }
    rewrite Hp, Hp1, Hcnt. clear Hp Hp1 Hcnt Hrun Hstep IH.
    cbn [length]. rewrite Nat2Z.inj_succ, Nat2Z.inj_add.
    set (n := Z.of_nat (length reads)) in *.
    assert (Hn : 0 ≤ n) by (subst n; lia).
    subst c1. destruct (400 <=? c) eqn:Hle.
    + apply Z.leb_le in Hle. assert (c = 400) as -> by lia.
      replace (400 + Z.succ n - 1) with (n + 1 * 400) by lia.
      replace (1 + n - 1) with n by lia.
      destruct (1 + n =? 0) eqn:E1; [apply Z.eqb_eq in E1; lia|].
      destruct (400 + Z.succ n =? 0) eqn:E2; [apply Z.eqb_eq in E2; lia|].
      rewrite !Z.max_r by lia.
      rewrite Z.mod_add, Z.div_add by lia. split; lia.
    + apply Z.leb_gt in Hle.
      replace (c + 1 + n - 1) with (c + Z.succ n - 1) by lia.
      destruct (c + 1 + n =? 0) eqn:E1; [apply Z.eqb_eq in E1; lia|].
      destruct (c + Z.succ n =? 0) eqn:E2; [apply Z.eqb_eq in E2; lia|].
      split; lia.
Qed.

(** C5 (as amended).  A run of the thread function whose loop makes [n]
    passes returns, and enters [sendPing] once at the head of the passes
    401, 801, ...: [(n - 1) / 400] times in all (none for [n = 0]).  With
    the counter at 400 the keep-alive block sends the ping and leaves the
    counter at 1. *)
Theorem ping_every_400_passes env reads s :
  (grabThreadFunc env reads s).1 = Ret tt ∧
  ping_calls (history (grabThreadFunc env reads s).2) =
    (ping_calls (history s) + (length reads - 1) / 400)%nat ∧
  ∃ s', keep_alive env 400 s = (Ret 1, s') ∧
        ping_calls (history s') = S (ping_calls (history s)).
Proof.
  remember ((length reads - 1) / 400)%nat as q eqn:Hq.
  unfold grabThreadFunc. run.
  match goal with |- context [grab_loop env reads 0 ?s0] =>
    destruct (grab_loop_pings env reads 0 s0 ltac:(lia)) as (c' & s' & Hrun & _ & Hp)
  end.
  rewrite Hrun. simpl. split; [reflexivity|]. split.
  - apply Nat2Z.inj. rewrite Hp, Nat2Z.inj_add. f_equal. subst q.
    rewrite Nat2Z.inj_div.
    destruct (length reads) as [|n]; [reflexivity|].
    rewrite Z.max_r by lia. f_equal. lia.
  - unfold keep_alive, sendPing. run.
    split_tests; (eexists; split; [reflexivity|]);
      simpl; rewrite ?ping_calls_snoc; simpl; lia.
Qed.

End Loop.

(** ** What a pass of the loop stores *)

(** Runs one pass on a report of full size with the right tag. *)
Ltac full_report Hsz Htag :=
  unfold grab_iteration, keep_alive, sendPing, store_samples; run;
  rewrite ?Hsz, ?Htag; run; split_tests.

Section Samples.
Context `{Firmware}.

Lemma full_size r : sizeof_SensData ≤ res r → (res r <? sizeof_SensData) = false.
Proof. intros. by apply Z.ltb_ge. Qed.

Lemma right_tag r :
  struct_id (report r) = REP_ID_SENSOR_DATA →
  (struct_id (report r) =? REP_ID_SENSOR_DATA) = true.
Proof. intros. by apply Z.eqb_eq. Qed.

Lemma transient_pass env r c s :
  (res r <? sizeof_SensData) = true ∨
  (struct_id (report r) =? REP_ID_SENSOR_DATA) = false →
  ∃ c' s', grab_iteration env r c s = (Ret c', s') ∧ samples s' = samples s.
Proof.
  intros Hcase. unfold grab_iteration, keep_alive, sendPing. run.
  destruct (res r <? sizeof_SensData) eqn:Hsz.
  - run; split_tests; do 2 eexists; (split; [reflexivity|]); reflexivity.
  - destruct Hcase as [|Htag]; [done|]. rewrite Htag.
    run; split_tests; do 2 eexists; (split; [reflexivity|]); reflexivity.
Qed.

(** C7.  A pass whose read times out, delivers fewer bytes than a
    [SensData] record, or delivers a report with another tag returns,
    leaves the four published samples as they were, and the loop goes on
    with the passes that follow. *)
Theorem transient_read_keeps_samples env r c s :
  (0 < sizeof_SensData ∧ res r ≤ 0) ∨
  res r < sizeof_SensData ∨
  struct_id (report r) ≠ REP_ID_SENSOR_DATA →
  ∃ c' s', grab_iteration env r c s = (Ret c', s') ∧
    samples s' = samples s ∧
    ∀ rest, grab_loop env (r :: rest) c s = grab_loop env rest c' s'.
Proof.
  intros Hcase.
  destruct (transient_pass env r c s) as (c' & s' & Hstep & Hsame).
  { destruct Hcase as [[Hpos Hres]|[Hres|Htag]].
    - left. apply Z.ltb_lt. lia.
    - left. by apply Z.ltb_lt.
    - right. by apply Z.eqb_neq. }
  exists c', s'. split; [exact Hstep|]. split; [exact Hsame|].
  intros rest. cbn [grab_loop]. unfold mbind, M_bind at 1. by rewrite Hstep.
Qed.

(** C9.  A pass on a full sensor-data report whose IMU validity byte is
    not 1 ("not valid") stores the accelerations as raw value times
    [ACC_SCALE], the angular rates as raw value times [GYRO_SCALE] and the
    IMU temperature as raw value times [TEMP_SCALE]. *)
Theorem imu_scaling env r c s :
  sizeof_SensData ≤ res r →
  struct_id (report r) = REP_ID_SENSOR_DATA →
  imu_not_valid (report r) ≠ 1 →
  ∃ c' s', grab_iteration env r c s = (Ret c', s') ∧
    IMU.aX (mLastIMUData s') = fp_mul (fp_of_int (aX (report r))) ACC_SCALE ∧
    IMU.aY (mLastIMUData s') = fp_mul (fp_of_int (aY (report r))) ACC_SCALE ∧
    IMU.aZ (mLastIMUData s') = fp_mul (fp_of_int (aZ (report r))) ACC_SCALE ∧
    IMU.gX (mLastIMUData s') = fp_mul (fp_of_int (gX (report r))) GYRO_SCALE ∧
    IMU.gY (mLastIMUData s') = fp_mul (fp_of_int (gY (report r))) GYRO_SCALE ∧
    IMU.gZ (mLastIMUData s') = fp_mul (fp_of_int (gZ (report r))) GYRO_SCALE ∧
    IMU.temp (mLastIMUData s') = fp_mul (fp_of_int (imu_temp (report r))) TEMP_SCALE.
Proof.
  intros Hsz%full_size Htag%right_tag _.
  full_report Hsz Htag; do 2 eexists; (split; [reflexivity|]);
    simpl; repeat split.
Qed.

(** The IMU sample of a full report, as far as the validity byte goes.
    A pass on a full sensor-data report overwrites the timestamp, the
    accelerations, the angular rates and the temperature of the IMU
    sample with the scaled values of the report whatever the IMU validity
    byte is.  That byte reaches the [valid] flag only: two reports that
    differ in nothing else leave objects that differ at most in that flag,
    and where the magnetometer and environmental codes are both the
    "new value" ones the flag is set exactly when the byte is not 1. *)
Theorem imu_fields_overwritten env r c s :
  sizeof_SensData ≤ res r →
  struct_id (report r) = REP_ID_SENSOR_DATA →
  ∃ c' s', grab_iteration env r c s = (Ret c', s') ∧
    IMU.timestamp (mLastIMUData s') =
      fp_to_uint64 (fp_mul (fp_of_int (timestamp (report r))) TS_SCALE) ∧
    IMU.aX (mLastIMUData s') = fp_mul (fp_of_int (aX (report r))) ACC_SCALE ∧
    IMU.aY (mLastIMUData s') = fp_mul (fp_of_int (aY (report r))) ACC_SCALE ∧
    IMU.aZ (mLastIMUData s') = fp_mul (fp_of_int (aZ (report r))) ACC_SCALE ∧
    IMU.gX (mLastIMUData s') = fp_mul (fp_of_int (gX (report r))) GYRO_SCALE ∧
    IMU.gY (mLastIMUData s') = fp_mul (fp_of_int (gY (report r))) GYRO_SCALE ∧
    IMU.gZ (mLastIMUData s') = fp_mul (fp_of_int (gZ (report r))) GYRO_SCALE ∧
    IMU.temp (mLastIMUData s') = fp_mul (fp_of_int (imu_temp (report r))) TEMP_SCALE ∧
    (∀ v, forget_imu_valid (grab_iteration env (with_imu_not_valid v r) c s).2 =
          forget_imu_valid s') ∧
    (mag_valid (report r) = MAG_NEW_VAL → env_valid (report r) = ENV_NEW_VAL →
     IMU.valid (mLastIMUData s') = negb (imu_not_valid (report r) =? 1)).
Proof.
  intros Hsz%full_size Htag%right_tag.
  assert (Hsz' : ∀ v, (res (with_imu_not_valid v r) <? sizeof_SensData) = false)
    by (intros v; exact Hsz).
  assert (Htag' : ∀ v,
    (struct_id (report (with_imu_not_valid v r)) =? REP_ID_SENSOR_DATA) = true)
    by (intros v; exact Htag).
  unfold grab_iteration, keep_alive, sendPing, store_samples; run.
  rewrite Hsz, Htag. simpl in Hsz', Htag'. run.
  split_tests; do 2 eexists; (split; [reflexivity|]); simpl;
    repeat match goal with |- _ ∧ _ => split end;
    try reflexivity;
    intros Hm He;
    repeat match goal with
           | E : (_ =? _) = false |- _ => apply Z.eqb_neq in E
           end;
    congruence.
Qed.

(** C10 (what the code does).  A pass on a full sensor-data report
    overwrites the timestamp, the accelerations, the angular rates and the
    temperature of the IMU sample with the scaled values of the report
    whatever the IMU validity byte is.  The [valid] flag, however, follows
    that byte only in a report whose two other channels are both fresh:
    as soon as the magnetometer code is not [MAG_NEW_VAL] or the
    environmental code is not [ENV_NEW_VAL], the flag stored is the
    magnetometer code read as a truth value, and the validity byte has no
    say. *)
Theorem imu_valid_takes_magnetometer_code env r c s :
  sizeof_SensData ≤ res r →
  struct_id (report r) = REP_ID_SENSOR_DATA →
  mag_valid (report r) ≠ MAG_NEW_VAL ∨ env_valid (report r) ≠ ENV_NEW_VAL →
  ∃ c' s', grab_iteration env r c s = (Ret c', s') ∧
    IMU.valid (mLastIMUData s') = bool_of_status (mag_valid (report r)) ∧
    IMU.timestamp (mLastIMUData s') =
      fp_to_uint64 (fp_mul (fp_of_int (timestamp (report r))) TS_SCALE) ∧
    IMU.aX (mLastIMUData s') = fp_mul (fp_of_int (aX (report r))) ACC_SCALE ∧
    IMU.aY (mLastIMUData s') = fp_mul (fp_of_int (aY (report r))) ACC_SCALE ∧
    IMU.aZ (mLastIMUData s') = fp_mul (fp_of_int (aZ (report r))) ACC_SCALE ∧
    IMU.gX (mLastIMUData s') = fp_mul (fp_of_int (gX (report r))) GYRO_SCALE ∧
    IMU.gY (mLastIMUData s') = fp_mul (fp_of_int (gY (report r))) GYRO_SCALE ∧
    IMU.gZ (mLastIMUData s') = fp_mul (fp_of_int (gZ (report r))) GYRO_SCALE ∧
    IMU.temp (mLastIMUData s') = fp_mul (fp_of_int (imu_temp (report r))) TEMP_SCALE.
Proof.
  intros Hsz%full_size Htag%right_tag Hstale.
  full_report Hsz Htag; do 2 eexists; (split; [reflexivity|]); simpl;
    repeat match goal with |- _ ∧ _ => split end;
    try reflexivity;
    repeat match goal with
           | E : (_ =? _) = true |- _ => apply Z.eqb_eq in E
           end;
    destruct Hstale; congruence.
Qed.

(** C1 (what the code does).  A pass on a full sensor-data report whose
    magnetometer code is not [MAG_NEW_VAL] leaves the stored magnetometer
    sample as it was in every field, the status included: the code of the
    report goes to the [valid] flag of the IMU sample.  The same holds for
    the environmental sample when the environmental code is not
    [ENV_NEW_VAL]; there too it is the magnetometer code that is written
    to the IMU flag. *)
Theorem status_code_not_stored env r c s :
  sizeof_SensData ≤ res r →
  struct_id (report r) = REP_ID_SENSOR_DATA →
  ∃ c' s', grab_iteration env r c s = (Ret c', s') ∧
    (mag_valid (report r) ≠ MAG_NEW_VAL → mLastMAGData s' = mLastMAGData s) ∧
    (env_valid (report r) ≠ ENV_NEW_VAL →
     mLastENVData s' = mLastENVData s ∧
     IMU.valid (mLastIMUData s') = bool_of_status (mag_valid (report r))).
Proof.
  intros Hsz%full_size Htag%right_tag.
  full_report Hsz Htag; do 2 eexists; (split; [reflexivity|]); simpl;
    (split; [intros Hm|intros He]);
    repeat match goal with
           | E : (_ =? _) = true |- _ => apply Z.eqb_eq in E
           end;
    try congruence; try (split; reflexivity); reflexivity.
Qed.

(** C3 (what the code does).  After a pass on a full sensor-data report
    the camera-temperature sample is marked valid exactly when the left
    raw temperature is not [TEMP_NOT_VALID] and the environmental code is
    [ENV_NEW_VAL]; the right raw temperature plays no part. *)
Theorem cam_temp_valid_ignores_right env r c s :
  sizeof_SensData ≤ res r →
  struct_id (report r) = REP_ID_SENSOR_DATA →
  ∃ c' s', grab_iteration env r c s = (Ret c', s') ∧
    CAMTEMP.valid (mLastCamTempData s') =
      negb (temp_cam_left (report r) =? TEMP_NOT_VALID) &&
      (env_valid (report r) =? ENV_NEW_VAL).
Proof.
  intros Hsz%full_size Htag%right_tag.
  unfold grab_iteration, keep_alive, sendPing, store_samples; run.
  rewrite Hsz, Htag. run.
  destruct (temp_cam_left (report r) =? TEMP_NOT_VALID);
    destruct (env_valid (report r) =? ENV_NEW_VAL); simpl;
    split_tests; do 2 eexists; (split; [reflexivity|]); reflexivity.
Qed.

End Samples.

(** ** Opening and closing a session *)

Section Lifecycle.
Context `{Firmware}.

Lemma reset_run env s :
  ∃ s', reset env s = (Ret tt, s') ∧
        mStopCapture s' = true ∧ mGrabThread s' = false ∧
        mDevHandle s' = None ∧ mInitialized s' = false.
Proof.
  destruct s as [v reg dev ini stop new running thr imu mag envd cam hist].
  unfold reset, enableDataStream.
  destruct thr, dev as [h|], v, ini,
    (hid_send_feature_result env [REP_ID_SENSOR_STREAM_STATUS; 0] <? 0) eqn:E;
    (eexists; split; [exec; rewrite ?E; reflexivity|repeat split]).
Qed.

Lemma reset_closed env s :
  mStopCapture s = true → mGrabThread s = false →
  mDevHandle s = None → mInitialized s = false →
  reset env s = (Ret tt, s).
Proof.
  destruct s as [v reg dev ini stop new running thr imu mag envd cam hist].
  cbn [mStopCapture mGrabThread mDevHandle mInitialized]. intros -> -> -> ->.
  unfold reset, enableDataStream. exec.
  rewrite andb_false_r. reflexivity.
Qed.

(** C8.  [reset] returns normally from every state, and a second [reset]
    right after the first returns normally and leaves the object as the
    first left it, the history of calls included: the thread is no longer
    joinable, so it is not joined again, and with the handle gone the
    transport is not called. *)
Theorem reset_idempotent env1 env2 s :
  (reset env1 s).1 = Ret tt ∧
  (reset env2 (reset env1 s).2).1 = Ret tt ∧
  (reset env2 (reset env1 s).2).2 = (reset env1 s).2 ∧
  mGrabThread (reset env1 s).2 = false ∧
  mDevHandle (reset env1 s).2 = None.
Proof.
  destruct (reset_run env1 s) as (s' & Hrun & Hstop & Hthr & Hdev & Hini).
  rewrite Hrun. cbn [fst snd].
  rewrite (reset_closed env2 s' Hstop Hthr Hdev Hini). done.
Qed.

(** C2 (what the code does).  When [init] is given a serial number, the
    transport hands out a handle and then refuses the feature report that
    enables the stream, [init] still returns [true]: the failure is kept
    in [mInitialized] only, and no capture thread is started. *)
Theorem init_true_when_enable_fails env sn s h :
  sn ≠ -1 →
  hid_open_result env (map_index (mSlDevPid s) sn).1 (to_string sn) = Some h →
  hid_send_feature_result env [REP_ID_SENSOR_STREAM_STATUS; 1] < 0 →
  (init env sn s).1 = Ret true ∧
  mInitialized (init env sn s).2 = false ∧
  mDevHandle (init env sn s).2 = Some h ∧
  mGrabThread (init env sn s).2 = mGrabThread s.
Proof.
  intros Hsn%Z.eqb_neq Hopen Hsend%Z.ltb_lt.
  destruct s as [v reg dev ini stop new running thr imu mag envd cam hist].
  cbn [mSlDevPid mGrabThread] in *.
  unfold init, select_device, connect, startCapture, enableDataStream.
  rewrite Hsn. exec. destruct (map_index reg sn) as [pid m'].
  cbn [fst] in Hopen. exec. rewrite Hopen. exec. rewrite Hsend.
  destruct v; exec; repeat split.
Qed.

Lemma connect_opens env k str s :
  (∃ rest, history (connect env k str s).2 =
             history s ++
             hid_open_call SL_USB_VENDOR (map_index (mSlDevPid s) k).1 str :: rest) ∧
  mDevHandle (connect env k str s).2 =
    hid_open_result env (map_index (mSlDevPid s) k).1 str.
Proof.
  destruct s as [v reg dev ini stop new running thr imu mag envd cam hist].
  cbn [mSlDevPid history].
  unfold connect, startCapture, enableDataStream. exec.
  destruct (map_index reg k) as [pid m']. exec.
  destruct (hid_open_result env pid str) as [h|] eqn:Hopen; exec;
    [destruct v,
       (hid_send_feature_result env [REP_ID_SENSOR_STREAM_STATUS; 1] <? 0),
       thr; exec|];
    (split; [|reflexivity]);
    rewrite <- ?app_assoc; cbn [app]; eexists; reflexivity.
Qed.

Lemma begin_key_least (m : gmap Z Z) :
  m ≠ ∅ →
  ∃ pid, m !! begin_key m = Some pid ∧ ∀ k', is_Some (m !! k') → begin_key m ≤ k'.
Proof.
  intros Hne. unfold begin_key.
  destruct (map_begin m) as [[k pid]|] eqn:Hb.
  - apply map_begin_Some in Hb as [Hk Hmin]. simpl. eauto.
  - by apply map_begin_None in Hb.
Qed.

(** C6.  [init(-1)] enumerates when the registry is empty and not
    otherwise.  With [s1] the object once that is done: if its registry is
    empty, [init] returns [false] after the message that no camera is
    available, without asking the transport for a handle; if not, [init]
    goes on to open the entry with the least serial number of the registry,
    asking [hid_open] for that entry's product id and the decimal string of
    that serial number, and keeps the handle it is given. *)
Theorem init_absent_serial env s s1 :
  (mSlDevPid s ≠ ∅ ∧ s1 = s) ∨
  (mSlDevPid s = ∅ ∧ ∃ n, enumerateDevices env s = (Ret n, s1)) →
  (mSlDevPid s1 = ∅ →
   init env (-1) s =
     (Ret false,
      set_history
        (history s1 ++ [message ERROR "No available ZED Mini or ZED2 cameras"]) s1)) ∧
  (mSlDevPid s1 ≠ ∅ →
   ∃ k pid,
     mSlDevPid s1 !! k = Some pid ∧
     (∀ k', is_Some (mSlDevPid s1 !! k') → k ≤ k') ∧
     init env (-1) s = connect env k (to_string k) s1 ∧
     (∃ rest, history (init env (-1) s).2 =
                history s1 ++ hid_open_call SL_USB_VENDOR pid (to_string k) :: rest) ∧
     mDevHandle (init env (-1) s).2 = hid_open_result env pid (to_string k)).
Proof.
  intros Hsel.
  assert (Hinit : init env (-1) s =
    if decide (size (mSlDevPid s1) = 0%nat) then
      (Ret false,
       set_history
         (history s1 ++ [message ERROR "No available ZED Mini or ZED2 cameras"]) s1)
    else connect env (begin_key (mSlDevPid s1))
                 (to_string (begin_key (mSlDevPid s1))) s1).
  { unfold init, select_device. run.
    destruct Hsel as [[Hne ->]|[Hempty (n & Henum)]].
    - destruct (decide (size (mSlDevPid s) = 0%nat)) as [Hz|Hz];
        [by apply map_size_empty_iff in Hz|].
      run. destruct (decide (size (mSlDevPid s) = 0%nat)); [done|]. reflexivity.
    - destruct (decide (size (mSlDevPid s) = 0%nat)) as [Hz|Hz];
        [|by rewrite map_size_empty_iff in Hz].
      rewrite Henum. run.
      destruct (decide (size (mSlDevPid s1) = 0%nat)); reflexivity. }
  rewrite Hinit. split.
  - intros Hempty.
    destruct (decide (size (mSlDevPid s1) = 0%nat)) as [Hz|Hz]; [reflexivity|].
    by rewrite map_size_empty_iff in Hz.
  - intros Hne.
    destruct (decide (size (mSlDevPid s1) = 0%nat)) as [Hz|Hz];
      [by apply map_size_empty_iff in Hz|].
    destruct (begin_key_least (mSlDevPid s1) Hne) as (pid & Hk & Hmin).
    exists (begin_key (mSlDevPid s1)), pid.
    split; [exact Hk|]. split; [exact Hmin|]. split; [reflexivity|].
    pose proof (connect_opens env (begin_key (mSlDevPid s1))
                  (to_string (begin_key (mSlDevPid s1))) s1) as [Hhist Hdev].
    unfold map_index in Hhist, Hdev. rewrite Hk in Hhist, Hdev.
    simpl in Hhist, Hdev. split; [exact Hhist|exact Hdev].
Qed.

End Lifecycle.

(** * Further properties of the code *)

(** ** The registry after an enumeration *)

Lemma stoi_in_range s n : stoi s = inr n → INT_MIN ≤ n ≤ INT_MAX.
Proof.
  unfold stoi. destruct (read_sign (skip_spaces s)) as [neg ds].
  destruct ds as [|c ds]; [done|]. destruct (isdigit c); [|done].
  destruct (_ && _) eqn:Hr; [|done]. intros [= <-].
  apply andb_true_iff in Hr as [?%Z.leb_le ?%Z.leb_le]. done.
Qed.

Lemma register_lookup (m : gmap Z Z) d k pid :
  register m d !! k = Some pid →
  m !! k = Some pid ∨ (stoi (serial_number d) = inr k ∧ product_id d = pid).
Proof.
  unfold register. destruct (stoi (serial_number d)) as [e|sn] eqn:Hsn; [by left|].
  destruct (decide (sn = k)) as [->|Hne].
  - rewrite lookup_insert_eq. intros [= <-]. by right.
  - rewrite lookup_insert_ne by done. by left.
Qed.

Lemma foldl_register_lookup devs : ∀ (m : gmap Z Z) k pid,
  foldl register m devs !! k = Some pid →
  m !! k = Some pid ∨
  ∃ d, d ∈ devs ∧ stoi (serial_number d) = inr k ∧ product_id d = pid.
Proof.
  induction devs as [|d devs IH]; intros m k pid; cbn [foldl]; [by left|].
  intros [Hm|(d' & Hin & Hd')]%IH.
  - apply register_lookup in Hm as [Hm|Hd]; [by left|].
    right. exists d. split; [by left|done].
  - right. exists d'. split; [by right|done].
Qed.

Lemma foldl_register_size devs : ∀ m : gmap Z Z,
  (size (foldl register m devs) ≤ size m + length devs)%nat.
Proof.
  induction devs as [|d devs IH]; intros m; cbn [foldl length]; [lia|].
  etrans; [apply IH|].
  assert (size (register m d) ≤ S (size m))%nat; [|lia].
  unfold register. destruct (stoi (serial_number d)) as [e|sn]; [lia|].
  destruct (m !! sn) as [v|] eqn:Hm.
  - rewrite map_size_insert_Some by eauto. lia.
  - rewrite map_size_insert_None by done. lia.
Qed.

Lemma foldl_register_last pre d post sn : ∀ m : gmap Z Z,
  stoi (serial_number d) = inr sn →
  Forall (λ x, stoi (serial_number x) ≠ inr sn) post →
  foldl register m (pre ++ d :: post) !! sn = Some (product_id d).
Proof.
  intros m Hd Hpost. rewrite foldl_app. cbn [foldl].
  set (m1 := register (foldl register m pre) d).
  assert (Hm1 : m1 !! sn = Some (product_id d)).
  { subst m1. unfold register. rewrite Hd. apply lookup_insert_eq. }
  clearbody m1. revert m1 Hm1.
  induction Hpost as [|x post Hx _ IH]; intros m1 Hm1; cbn [foldl]; [done|].
  apply IH. unfold register.
  destruct (stoi (serial_number x)) as [e|sn'] eqn:Hsn'; [done|].
  rewrite lookup_insert_ne by congruence. done.
Qed.

Section RegistryMore.
Context `{Firmware}.

Lemma enumerate_loop_entries devs : ∀ s k pid,
  mSlDevPid (enumerate_loop devs s).2 !! k = Some pid →
  mSlDevPid s !! k = Some pid ∨
  ∃ d, d ∈ devs ∧ stoi (serial_number d) = inr k ∧ product_id d = pid.
Proof.
  induction devs as [|d devs IH]; intros s k pid; cbn [enumerate_loop].
  { by left. }
  unfold mbind, M_bind at 1.
  destruct (stoi (serial_number d)) as [e|sn] eqn:Hsn.
  - rewrite (enumerate_device_throw d e s Hsn). by left.
  - destruct (enumerate_device_ok d sn s Hsn) as (s1 & -> & Hreg).
    intros [Hs1|(d' & Hin & Hd')]%IH.
    + rewrite Hreg in Hs1.
      destruct (decide (sn = k)) as [->|Hne].
      * rewrite lookup_insert_eq in Hs1. injection Hs1 as <-.
        right. exists d. split; [by left|done].
      * rewrite lookup_insert_ne in Hs1 by done. by left.
    + right. exists d'. split; [by right|done].
Qed.

Lemma enumerateDevices_ok env s :
  hid_init_result env ≠ -1 →
  Forall (λ d, ∃ sn, stoi (serial_number d) = inr sn) (hid_devices env) →
  ∃ s', enumerateDevices env s =
          (Ret (to_int (Z.of_nat (size (registry_of (hid_devices env))))), s') ∧
        mSlDevPid s' = registry_of (hid_devices env).
Proof.
  intros Hinit%Z.eqb_neq Hall.
  destruct s as [v reg dev ini stop new running thr imu mag envd cam hist].
  unfold enumerateDevices. exec. rewrite Hinit.
  match goal with |- context [enumerate_loop _ ?s0] =>
    destruct (enumerate_loop_ok (hid_devices env) s0 Hall) as (s1 & Hrun & Hreg)
  end.
  rewrite Hrun. cbn [mSlDevPid] in Hreg. fold (registry_of (hid_devices env)) in Hreg.
  destruct s1 as [v1 reg1 dev1 ini1 stop1 new1 running1 thr1 imu1 mag1 envd1 cam1 hist1].
  cbn [mSlDevPid] in Hreg. subst reg1. eexists. split; reflexivity.
Qed.

(** X1.  When the transport initialises and every serial string of the
    device list converts, [enumerateDevices] replaces the registry by the
    one the list makes, whatever the registry held before, and returns the
    number of its entries, which is at most the length of the list. *)
Theorem enumerateDevices_replaces_registry env s :
  hid_init_result env ≠ -1 →
  Forall (λ d, ∃ sn, stoi (serial_number d) = inr sn) (hid_devices env) →
  Z.of_nat (length (hid_devices env)) ≤ INT_MAX →
  (enumerateDevices env s).1 =
    Ret (Z.of_nat (size (registry_of (hid_devices env)))) ∧
  mSlDevPid (enumerateDevices env s).2 = registry_of (hid_devices env) ∧
  (size (registry_of (hid_devices env)) ≤ length (hid_devices env))%nat.
Proof.
  intros Hinit Hall Hlen.
  destruct (enumerateDevices_ok env s Hinit Hall) as (s' & -> & Hreg).
  pose proof (foldl_register_size (hid_devices env) ∅) as Hsize.
  rewrite map_size_empty in Hsize. fold (registry_of (hid_devices env)) in Hsize.
  cbn [fst snd]. split; [|split; [exact Hreg|lia]].
  f_equal. unfold to_int, INT_MAX in *.
  rewrite Z.mod_small by lia. lia.
Qed.

(** X2.  However [enumerateDevices] ends (a return, a failed [hid_init]
    or an exception of [std::stoi]), every entry the registry holds
    afterwards comes from the device list of this call: its key is the
    value of a serial string of the list, within the range of [int], and
    its product id is that device's.  Nothing of the registry of before
    survives the call. *)
Theorem enumerateDevices_entries_from_list env s k pid :
  mSlDevPid (enumerateDevices env s).2 !! k = Some pid →
  INT_MIN ≤ k ≤ INT_MAX ∧
  ∃ d, d ∈ hid_devices env ∧ stoi (serial_number d) = inr k ∧ product_id d = pid.
Proof.
  intros Hk.
  assert (Hfrom : ∃ d, d ∈ hid_devices env ∧ stoi (serial_number d) = inr k ∧
                       product_id d = pid).
  { revert Hk.
    destruct s as [v reg dev ini stop new running thr imu mag envd cam hist].
    unfold enumerateDevices. exec.
    destruct (hid_init_result env =? -1); [cbn; by rewrite lookup_empty|].
    match goal with |- context [enumerate_loop _ ?s0] =>
      pose proof (enumerate_loop_entries (hid_devices env) s0 k pid) as Hloop;
      destruct (enumerate_loop (hid_devices env) s0) as [[u|e|] s1]
    end; cbn [fst snd mSlDevPid] in *; intros Hk;
      (destruct s1; cbn [mSlDevPid] in *);
      (destruct (Hloop Hk) as [Hempty|Hd]; [by rewrite lookup_empty in Hempty|exact Hd]). }
  split; [|exact Hfrom].
  destruct Hfrom as (d & _ & Hd & _). by eapply stoi_in_range.
Qed.

(** X3.  When two devices of the list have serial strings of the same
    value, the later one wins: after a successful enumeration the registry
    maps a serial number to the product id of the last device of the list
    that carries it. *)
Theorem enumerateDevices_last_entry_wins env s pre d post sn :
  hid_init_result env ≠ -1 →
  hid_devices env = pre ++ d :: post →
  Forall (λ d, ∃ sn, stoi (serial_number d) = inr sn) (hid_devices env) →
  stoi (serial_number d) = inr sn →
  Forall (λ x, stoi (serial_number x) ≠ inr sn) post →
  mSlDevPid (enumerateDevices env s).2 !! sn = Some (product_id d).
Proof.
  intros Hinit Hdevs Hall Hd Hpost.
  destruct (enumerateDevices_ok env s Hinit Hall) as (s' & -> & Hreg).
  cbn [snd]. rewrite Hreg, Hdevs. unfold registry_of.
  by apply foldl_register_last.
Qed.

End RegistryMore.

(** ** std::stoi against std::to_string *)

Lemma read_sign_cases s :
  (∃ r, s = String "-" r ∧ read_sign s = (true, r)) ∨
  (∃ r, s = String "+" r ∧ read_sign s = (false, r)) ∨
  (read_sign s = (false, s) ∧
   ∀ c r, s = String c r → c ≠ "-"%char ∧ c ≠ "+"%char).
Proof.
  destruct s as [|c r]; [right; right; split; [reflexivity|discriminate]|].
  destruct (decide (c = "-"%char)) as [->|Hm]; [left; eauto|].
  destruct (decide (c = "+"%char)) as [->|Hp]; [right; left; eauto|].
  right; right. split; [|intros c' r' [= <- <-]; done].
  destruct c as [[] [] [] [] [] [] [] []]; try reflexivity; congruence.
Qed.

Lemma isdigit_not_space c : isdigit c = true → isspace c = false.
Proof.
  unfold isdigit, isspace.
  intros [?%Z.leb_le ?%Z.leb_le]%andb_true_iff.
  apply orb_false_iff. split; [apply Z.eqb_neq; lia|].
  apply andb_false_iff. right. apply Z.leb_gt. lia.
Qed.

Lemma isdigit_not_sign c : isdigit c = true → c ≠ "-"%char ∧ c ≠ "+"%char.
Proof. split; intros ->; discriminate. Qed.

Lemma stoi_digit_first c rest :
  isdigit c = true →
  stoi (String c rest) =
    if (INT_MIN <=? read_digits 0 (String c rest)) &&
       (read_digits 0 (String c rest) <=? INT_MAX)
    then inr (read_digits 0 (String c rest)) else inl out_of_range.
Proof.
  intros Hd. unfold stoi. cbn [skip_spaces].
  rewrite (isdigit_not_space c Hd).
  destruct (read_sign_cases (String c rest))
    as [(r & [= -> _] & _)|[(r & [= -> _] & _)|[-> _]]]; [done..|].
  by rewrite Hd.
Qed.

Lemma stoi_minus_digit c rest :
  isdigit c = true →
  stoi (String "-" (String c rest)) =
    if (INT_MIN <=? - read_digits 0 (String c rest)) &&
       (- read_digits 0 (String c rest) <=? INT_MAX)
    then inr (- read_digits 0 (String c rest)) else inl out_of_range.
Proof.
  intros Hd. unfold stoi. cbn [skip_spaces].
  change (isspace "-") with false. cbn iota.
  change (read_sign (String "-" (String c rest))) with (true, String c rest).
  cbn iota. by rewrite Hd.
Qed.

Lemma pretty_N_char_digit x :
  (x < 10)%N →
  isdigit (pretty_N_char x) = true ∧ digit_value (pretty_N_char x) = Z.of_N x.
Proof.
  intros Hx.
  assert (x = 0 ∨ x = 1 ∨ x = 2 ∨ x = 3 ∨ x = 4 ∨ x = 5 ∨ x = 6 ∨ x = 7 ∨
          x = 8 ∨ x = 9)%N as Hcases by lia.
  repeat (destruct Hcases as [->|Hcases]; [split; reflexivity|]).
  subst. split; reflexivity.
Qed.

Lemma pretty_N_go_head x : ∀ s,
  (0 < x)%N → ∃ c rest, pretty_N_go x s = String c rest ∧ isdigit c = true.
Proof.
  induction (N.lt_wf_0 x) as [x _ IH]; intros s Hx.
  rewrite pretty_N_go_step by done.
  destruct (decide (x `div` 10 = 0)%N) as [Hz|Hz].
  - rewrite Hz, pretty_N_go_0. do 2 eexists. split; [reflexivity|].
    apply pretty_N_char_digit. by apply N.mod_lt.
  - apply IH; [apply N.div_lt; lia|by apply N.neq_0_lt_0].
Qed.

Lemma read_digits_pretty x :
  (0 < x)%N →
  ∃ k, 0 ≤ k ∧ ∀ acc s,
    read_digits acc (pretty_N_go x s) = read_digits (acc * 10 ^ k + Z.of_N x) s.
Proof.
  induction (N.lt_wf_0 x) as [x _ IH]; intros Hx.
  destruct (pretty_N_char_digit (x `mod` 10)) as [Hdig Hval];
    [by apply N.mod_lt|].
  assert (Hx10 : Z.of_N x = 10 * Z.of_N (x `div` 10) + Z.of_N (x `mod` 10)).
  { rewrite <- (N2Z.inj_mul 10), <- N2Z.inj_add. f_equal. by apply N.div_mod. }
  destruct (decide (x `div` 10 = 0)%N) as [Hz|Hz].
  - exists 1. split; [lia|]. intros acc s.
    rewrite pretty_N_go_step, Hz, pretty_N_go_0 by done.
    cbn [read_digits]. rewrite Hdig, Hval. f_equal.
    rewrite Hx10, Hz. lia.
  - destruct (IH (x `div` 10)%N) as (k & Hk & Hread);
      [apply N.div_lt; lia|by apply N.neq_0_lt_0|].
    exists (Z.succ k). split; [lia|]. intros acc s.
    rewrite pretty_N_go_step, Hread by done.
    cbn [read_digits]. rewrite Hdig, Hval. f_equal.
    rewrite Z.pow_succ_r by done. lia.
Qed.

Lemma read_digits_pretty_positive p :
  ∃ c rest, pretty (N.pos p) = String c rest ∧ isdigit c = true ∧
            read_digits 0 (String c rest) = Z.pos p.
Proof.
  assert (Hpos : (0 < N.pos p)%N) by lia.
  destruct (pretty_N_go_head (N.pos p) "" Hpos) as (c & rest & Hhead & Hdig).
  destruct (read_digits_pretty (N.pos p) Hpos) as (k & _ & Hread).
  exists c, rest. unfold pretty, pretty_N.
  destruct (decide (N.pos p = 0%N)) as [|_]; [done|].
  split; [exact Hhead|]. split; [exact Hdig|].
  rewrite <- Hhead, Hread. cbn [read_digits]. lia.
Qed.

(** X4.  Round trip: for every [int] the decimal string [std::to_string]
    makes of it is read back by [std::stoi] as the same number.  So the
    serial string [init] hands to [hid_open] names the serial number it
    was made from. *)
Theorem stoi_to_string n :
  INT_MIN ≤ n ≤ INT_MAX → stoi (to_string n) = inr n.
Proof.
  intros [Hlo Hhi]. unfold to_string, pretty, pretty_Z.
  destruct n as [|p|p]; [reflexivity|..].
  - destruct (read_digits_pretty_positive p) as (c & rest & Hstr & Hdig & Hval).
    change (pretty p) with (pretty (N.pos p)). rewrite Hstr.
    rewrite (stoi_digit_first c rest Hdig), Hval.
    apply Z.leb_le in Hlo, Hhi. by rewrite Hlo, Hhi.
  - destruct (read_digits_pretty_positive p) as (c & rest & Hstr & Hdig & Hval).
    change (pretty p) with (pretty (N.pos p)). rewrite Hstr.
    change ("-" +:+ String c rest) with (String "-" (String c rest)).
    rewrite (stoi_minus_digit c rest Hdig), Hval.
    change (- Z.pos p) with (Z.neg p).
    apply Z.leb_le in Hlo, Hhi. by rewrite Hlo, Hhi.
Qed.

Lemma read_digits_stops ds c t : ∀ acc,
  isdigit c = false →
  read_digits acc (ds +:+ String c t) = read_digits acc ds.
Proof.
  induction ds as [|d ds IH]; intros acc Hc; simpl.
  - by rewrite Hc.
  - destruct (isdigit d); [by apply IH|done].
Qed.

Lemma skip_spaces_app s u :
  skip_spaces s ≠ EmptyString → skip_spaces (s +:+ u) = skip_spaces s +:+ u.
Proof.
  induction s as [|c s IH]; simpl; [done|].
  destruct (isspace c); [exact IH|done].
Qed.

(** X5.  [std::stoi] looks at nothing behind the digits: when a string
    converts, the same string followed by a character that is no digit,
    and by anything after it, converts to the same number.  So the serial
    strings 12 and 12abc name the same registry key. *)
Theorem stoi_ignores_tail s c t n :
  stoi s = inr n → isdigit c = false → stoi (s +:+ String c t) = inr n.
Proof.
  intros Hs Hc. revert Hs. unfold stoi.
  assert (Hne : skip_spaces s ≠ EmptyString → 
    skip_spaces (s +:+ String c t) = skip_spaces s +:+ String c t)
    by apply skip_spaces_app.
  destruct (skip_spaces s) as [|c0 s0] eqn:Hskip; [done|].
  rewrite Hne by done. clear Hne.
  destruct (read_sign_cases (String c0 s0))
    as [(r & [= -> ->] & _)|[(r & [= -> ->] & _)|[Hsame Hnosign]]].
  - simpl. rewrite !read_digits_stops by done.
    destruct r as [|d ds]; [done|]. simpl. done.
  - simpl. rewrite !read_digits_stops by done.
    destruct r as [|d ds]; [done|]. simpl. done.
  - rewrite Hsame.
    destruct (read_sign_cases (String c0 s0 +:+ String c t))
      as [(r & [= -> _] & _)|[(r & [= -> _] & _)|[-> _]]].
    + by destruct (Hnosign _ _ eq_refl).
    + by destruct (Hnosign _ _ eq_refl).
    + simpl. rewrite ?read_digits_stops by done. done.
Qed.

(** ** Opening and closing, path by path *)

Section LifecycleMore.
Context `{Firmware}.

(** X6.  [init] with a serial number the registry does not know still
    asks the transport for a handle: the look-up [mSlDevPid[sn]] enters
    the serial number into the registry with the product id 0, and
    [hid_open] is called with that product id. *)
Theorem init_unknown_serial env sn s :
  sn ≠ -1 →
  mSlDevPid s !! sn = None →
  mSlDevPid (init env sn s).2 = <[sn := 0]> (mSlDevPid s) ∧
  ∃ rest, history (init env sn s).2 =
            history s ++ hid_open_call SL_USB_VENDOR 0 (to_string sn) :: rest.
Proof.
  intros Hsn%Z.eqb_neq Hnone.
  destruct s as [v reg dev ini stop new running thr imu mag envd cam hist].
  cbn [mSlDevPid history] in *.
  unfold init, select_device, connect, startCapture, enableDataStream, map_index.
  rewrite Hsn. exec. rewrite Hnone. exec.
  destruct (hid_open_result env 0 (to_string sn)) as [h|]; exec;
    [destruct v,
       (hid_send_feature_result env [REP_ID_SENSOR_STREAM_STATUS; 1] <? 0),
       thr; exec|];
    (split; [reflexivity|]);
    rewrite <- ?app_assoc; cbn [app]; eexists; reflexivity.
Qed.

(** X7.  When [hid_open] gives no handle, [init] returns [false] after
    the error message and does nothing else: no feature report is sent, no
    thread is started, [mInitialized] keeps its value.  The handle member
    is overwritten with the null pointer. *)
Theorem init_open_failure env sn s :
  sn ≠ -1 →
  hid_open_result env (map_index (mSlDevPid s) sn).1 (to_string sn) = None →
  init env sn s =
    (Ret false,
     set_history
       (history s ++
        [hid_open_call SL_USB_VENDOR (map_index (mSlDevPid s) sn).1 (to_string sn);
         message ERROR ("Connection to device with sn " +:+ to_string sn +:+ " failed")])
       (set_mDevHandle None (set_mSlDevPid (map_index (mSlDevPid s) sn).2 s))).
Proof.
  intros Hsn%Z.eqb_neq Hopen.
  destruct s as [v reg dev ini stop new running thr imu mag envd cam hist].
  cbn [mSlDevPid history] in *.
  unfold init, select_device, connect.
  rewrite Hsn. exec.
  destruct (map_index reg sn) as [pid m']. cbn [fst snd] in *.
  exec. rewrite Hopen. exec. rewrite <- app_assoc. reflexivity.
Qed.

(** X8.  The good path of [init]: with a handle from [hid_open], the
    enable-stream report accepted and no capture thread running, [init]
    returns [true] with the handle kept, [mInitialized] set and the thread
    started, and the transport has seen the open request and then the
    two-byte report (status tag, 1), in this order. *)
Theorem init_success env sn s h :
  sn ≠ -1 →
  hid_open_result env (map_index (mSlDevPid s) sn).1 (to_string sn) = Some h →
  0 ≤ hid_send_feature_result env [REP_ID_SENSOR_STREAM_STATUS; 1] →
  mGrabThread s = false →
  (init env sn s).1 = Ret true ∧
  mDevHandle (init env sn s).2 = Some h ∧
  mInitialized (init env sn s).2 = true ∧
  mGrabThread (init env sn s).2 = true ∧
  history (init env sn s).2 =
    history s ++
    hid_open_call SL_USB_VENDOR (map_index (mSlDevPid s) sn).1 (to_string sn) ::
    (if verbose s
     then [message INFO ("Connected to device with sn " +:+ to_string sn)]
     else []) ++
    [hid_send_feature_report_call h [REP_ID_SENSOR_STREAM_STATUS; 1]; thread_start].
Proof.
  intros Hsn%Z.eqb_neq Hopen Hsend%Z.ltb_ge Hthr.
  destruct s as [v reg dev ini stop new running thr imu mag envd cam hist].
  cbn [mSlDevPid history mGrabThread verbose] in *. subst thr.
  unfold init, select_device, connect, startCapture, enableDataStream.
  rewrite Hsn. exec.
  destruct (map_index reg sn) as [pid m']. cbn [fst snd] in *.
  exec. rewrite Hopen. exec. rewrite Hsend.
  destruct v; exec; repeat split; rewrite <- ?app_assoc; reflexivity.
Qed.

(** X9.  [init] on a session whose capture thread is still joinable (no
    [reset] since the last successful [init]) does not return once the
    stream is enabled: the new thread is assigned to the joinable
    [mGrabThread], which ends the process by [std::terminate]. *)
Theorem init_while_streaming_terminates env sn s h :
  sn ≠ -1 →
  hid_open_result env (map_index (mSlDevPid s) sn).1 (to_string sn) = Some h →
  0 ≤ hid_send_feature_result env [REP_ID_SENSOR_STREAM_STATUS; 1] →
  mGrabThread s = true →
  (init env sn s).1 = Terminate.
Proof.
  intros Hsn%Z.eqb_neq Hopen Hsend%Z.ltb_ge Hthr.
  destruct s as [v reg dev ini stop new running thr imu mag envd cam hist].
  cbn [mSlDevPid mGrabThread] in *. subst thr.
  unfold init, select_device, connect, startCapture, enableDataStream.
  rewrite Hsn. exec.
  destruct (map_index reg sn) as [pid m']. cbn [fst snd] in *.
  exec. rewrite Hopen. exec. rewrite Hsend.
  destruct v; reflexivity.
Qed.

(** X10.  What [reset] does to the outside, in order: it joins the thread
    if it is joinable; with a handle it sends the two-byte report (status
    tag, 0), warns when that fails and the session is verbose, and closes
    the handle whether the report was accepted or not; it reports the
    closing when verbose and initialised.  Without a handle the transport
    is not called at all. *)
Theorem reset_history env s :
  history (reset env s).2 =
    history s ++
    (if mGrabThread s then [thread_join] else []) ++
    match mDevHandle s with
    | Some h =>
        hid_send_feature_report_call h [REP_ID_SENSOR_STREAM_STATUS; 0] ::
        (if (hid_send_feature_result env [REP_ID_SENSOR_STREAM_STATUS; 0] <? 0) &&
            verbose s
         then [message WARNING
                 ("Unable to set a feature report [SensStreamStatus] - " +:+
                  hid_error env)]
         else []) ++
        [hid_close_call h]
    | None => []
    end ++
    (if verbose s && mInitialized s then [message INFO "Device closed"] else []).
Proof.
  destruct s as [v reg dev ini stop new running thr imu mag envd cam hist].
  cbn [history mGrabThread mDevHandle verbose mInitialized].
  unfold reset, enableDataStream.
  destruct thr, dev as [h|], v, ini,
    (hid_send_feature_result env [REP_ID_SENSOR_STREAM_STATUS; 0] <? 0);
    exec; cbn [andb app]; rewrite <- ?app_assoc; cbn [app];
    rewrite ?app_nil_r; reflexivity.
Qed.

(** X11.  A serial string that [std::stoi] rejects makes [init] without
    a serial number fail by that exception when it has to enumerate: the
    exception of [enumerateDevices] leaves through [init], which has not
    asked for a handle by then. *)
Theorem init_enumeration_throws env s e :
  mSlDevPid s = ∅ →
  (enumerateDevices env s).1 = Throw e →
  init env (-1) s = (Throw e, (enumerateDevices env s).2).
Proof.
  intros Hempty Hthrow.
  destruct s as [v reg dev ini stop new running thr imu mag envd cam hist].
  cbn [mSlDevPid] in Hempty. subst reg.
  unfold init, select_device. change (negb (-1 =? -1)) with false. exec.
  destruct (decide (size (∅ : gmap Z Z) = 0%nat)) as [_|Hsz];
    [|by rewrite map_size_empty in Hsz].
  exec.
  destruct (enumerateDevices env _) as [o s1]. cbn [fst snd] in *. subst o.
  reflexivity.
Qed.

End LifecycleMore.

(** ** The capture loop over many passes *)

Lemma read_calls_snoc (l : list event) (e : event) :
  read_calls (l ++ [e]) = (read_calls l + (if is_read e then 1 else 0))%nat.
Proof.
  unfold read_calls. rewrite filter_app, length_app. f_equal.
  cbn. destruct (is_read e); reflexivity.
Qed.

Section LoopMore.
Context `{Firmware}.

Lemma grab_iteration_frame env r c s :
  ∃ c' s', grab_iteration env r c s = (Ret c', s') ∧
    verbose s' = verbose s ∧ mSlDevPid s' = mSlDevPid s ∧
    mDevHandle s' = mDevHandle s ∧ mInitialized s' = mInitialized s ∧
    mGrabThread s' = mGrabThread s ∧
    read_calls (history s') = S (read_calls (history s)).
Proof.
  destruct s as [v reg dev ini stop new running thr imu mag envd cam hist].
  unfold grab_iteration, keep_alive, sendPing, store_samples. exec.
  split_tests; do 2 eexists; (split; [reflexivity|]);
    cbn [verbose mSlDevPid mDevHandle mInitialized mGrabThread history];
    repeat (split; [reflexivity|]);
    rewrite ?read_calls_snoc; cbn [is_read]; lia.
Qed.

Lemma grab_loop_app env l1 l2 : ∀ c s,
  ∃ c1 s1, grab_loop env l1 c s = (Ret c1, s1) ∧
           grab_loop env (l1 ++ l2) c s = grab_loop env l2 c1 s1.
Proof.
  induction l1 as [|r l1 IH]; intros c s; cbn [app grab_loop].
  - exists c, s. split; reflexivity.
  - destruct (grab_iteration_frame env r c s) as (c1 & s1 & Hstep & _).
    destruct (IH c1 s1) as (c2 & s2 & Hrun & Happ).
    exists c2, s2. unfold mbind, M_bind. rewrite Hstep. split; assumption.
Qed.

(** X12.  The loop never ends by itself and never touches the session:
    for any reports and any answers to the pings, a run of the loop
    returns, leaves the verbosity, the registry, the handle,
    [mInitialized] and the thread member as they were, and has called
    [hid_read_timeout] exactly once per pass. *)
Theorem capture_loop_keeps_session env reads : ∀ c s,
  ∃ c' s', grab_loop env reads c s = (Ret c', s') ∧
    verbose s' = verbose s ∧ mSlDevPid s' = mSlDevPid s ∧
    mDevHandle s' = mDevHandle s ∧ mInitialized s' = mInitialized s ∧
    mGrabThread s' = mGrabThread s ∧
    read_calls (history s') = (read_calls (history s) + length reads)%nat.
Proof.
  induction reads as [|r reads IH]; intros c s; cbn [grab_loop length].
  - exists c, s. repeat split. lia.
  - destruct (grab_iteration_frame env r c s)
      as (c1 & s1 & Hstep & Hv & Hreg & Hdev & Hini & Hthr & Hreads).
    destruct (IH c1 s1) as (c' & s' & Hrun & Hv' & Hreg' & Hdev' & Hini' & Hthr' & Hreads').
    exists c', s'. unfold mbind, M_bind at 1. rewrite Hstep.
    split; [exact Hrun|]. repeat split; try congruence. lia.
Qed.

(** X13.  [ping_data_count] stays within 0..400 however long the loop
    runs (so the [int] cannot overflow), and is at least 1 after any
    pass. *)
Theorem ping_counter_bounded env reads c s :
  0 ≤ c ≤ 400 →
  ∃ c', (grab_loop env reads c s).1 = Ret c' ∧ 0 ≤ c' ≤ 400 ∧
        (reads ≠ [] → 1 ≤ c').
Proof.
  intros Hc.
  destruct (grab_loop_pings env reads c s Hc) as (c' & s' & -> & Hc' & _).
  exists c'. split; [reflexivity|]. subst c'.
  destruct (c + Z.of_nat (length reads) =? 0) eqn:Hz.
  - apply Z.eqb_eq in Hz. split; [lia|].
    intros Hne. destruct reads; [done|]. cbn [length] in Hz. lia.
  - pose proof (Z.mod_pos_bound (c + Z.of_nat (length reads) - 1) 400). lia.
Qed.

Lemma transient_loop_samples env reads : ∀ c s,
  Forall transient reads →
  samples (grab_loop env reads c s).2 = samples s.
Proof.
  induction reads as [|r reads IH]; intros c s Hall; cbn [grab_loop]; [reflexivity|].
  apply Forall_cons in Hall as [Hr Hall].
  destruct (transient_pass env r c s) as (c1 & s1 & Hstep & Hsame).
  { destruct Hr as [Hres|Htag]; [left; by apply Z.ltb_lt|right; by apply Z.eqb_neq]. }
  unfold mbind, M_bind at 1. rewrite Hstep, <- Hsame. by apply IH.
Qed.

(** X14.  A link that delivers nothing but timeouts, short reports or
    reports with another tag leaves all four samples as they were, for any
    number of passes; the samples go stale, the loop goes on. *)
Theorem transient_reads_keep_samples env reads c s :
  Forall transient reads →
  samples (grab_loop env reads c s).2 = samples s.
Proof. apply transient_loop_samples. Qed.

Lemma full_pass_imu env r c s :
  sizeof_SensData ≤ res r →
  struct_id (report r) = REP_ID_SENSOR_DATA →
  mLastIMUData (grab_iteration env r c s).2 = imu_of_report (report r).
Proof.
  intros Hsz%full_size Htag%right_tag.
  destruct s as [v reg dev ini stop new running thr imu mag envd cam hist].
  unfold grab_iteration, keep_alive, sendPing, store_samples, imu_of_report. exec.
  rewrite Hsz, Htag.
  destruct (mag_valid (report r) =? MAG_NEW_VAL),
    (env_valid (report r) =? ENV_NEW_VAL); cbn [andb];
    split_tests; reflexivity.
Qed.

(** X15.  The IMU sample after a run is decided by the last full
    sensor-data report alone: when only timeouts, short reports and
    reports with another tag follow it, the sample is [imu_of_report] of
    that report, whatever was stored before.  Its [valid] flag is the
    negated validity byte only if both other channels are fresh in that
    report, and the magnetometer code read as a truth value otherwise. *)
Theorem last_full_report_decides_imu env pre r post c s :
  sizeof_SensData ≤ res r →
  struct_id (report r) = REP_ID_SENSOR_DATA →
  Forall transient post →
  mLastIMUData (grab_loop env (pre ++ r :: post) c s).2 = imu_of_report (report r).
Proof.
  intros Hsz Htag Hpost.
  destruct (grab_loop_app env pre (r :: post) c s) as (c1 & s1 & _ & ->).
  cbn [grab_loop].
  destruct (grab_iteration_frame env r c1 s1) as (c2 & s2 & Hstep & _).
  pose proof (full_pass_imu env r c1 s1 Hsz Htag) as Himu.
  unfold mbind, M_bind. rewrite Hstep in Himu |- *. cbn [snd] in Himu.
  pose proof (transient_loop_samples env post c2 s2 Hpost) as Hsame.
  unfold samples in Hsame. injection Hsame as Hi _ _ _. by rewrite Hi.
Qed.

End LoopMore.

(** ** The other channels of a full report *)

Section ChannelsMore.
Context `{Firmware}.

(** X16.  A pass on a full sensor-data report stores a fresh magnetometer
    channel as status "new value", the scaled timestamp and the three raw
    fields times [MAG_SCALE], and a fresh environmental channel as status
    "new value", the scaled timestamp, temperature times [TEMP_SCALE],
    pressure times [PRESS_SCALE_NEW] and humidity times
    [HUMID_SCALE_NEW]. *)
Theorem fresh_channels_stored env r c s :
  sizeof_SensData ≤ res r →
  struct_id (report r) = REP_ID_SENSOR_DATA →
  (mag_valid (report r) = MAG_NEW_VAL →
   mLastMAGData (grab_iteration env r c s).2 =
     {| MAG.valid := MAG_NEW_VAL;
        MAG.timestamp := fp_to_uint64 (fp_mul (fp_of_int (timestamp (report r))) TS_SCALE);
        MAG.mX := fp_mul (fp_of_int (mX (report r))) MAG_SCALE;
        MAG.mY := fp_mul (fp_of_int (mY (report r))) MAG_SCALE;
        MAG.mZ := fp_mul (fp_of_int (mZ (report r))) MAG_SCALE |}) ∧
  (env_valid (report r) = ENV_NEW_VAL →
   mLastENVData (grab_iteration env r c s).2 =
     {| ENV.valid := ENV_NEW_VAL;
        ENV.timestamp := fp_to_uint64 (fp_mul (fp_of_int (timestamp (report r))) TS_SCALE);
        ENV.temp := fp_mul (fp_of_int (temp (report r))) TEMP_SCALE;
        ENV.press := fp_mul (fp_of_int (press (report r))) PRESS_SCALE_NEW;
        ENV.humid := fp_mul (fp_of_int (humid (report r))) HUMID_SCALE_NEW |}).
Proof.
  intros Hsz%full_size Htag%right_tag.
  destruct s as [v reg dev ini stop new running thr imu mag envd cam hist].
  unfold grab_iteration, keep_alive, sendPing, store_samples. exec.
  rewrite Hsz, Htag.
  split; [intros Hm%Z.eqb_eq; rewrite Hm|intros He%Z.eqb_eq; rewrite He];
    split_tests; reflexivity.
Qed.

(** X17.  The camera temperatures of a full sensor-data report: when the
    left raw value is not [TEMP_NOT_VALID] and the environmental channel
    is fresh, the sample is stored as valid with the scaled timestamp and
    both raw values times [TEMP_SCALE], and the timestamp is printed;
    otherwise only the [valid] flag is cleared and the timestamp and both
    temperatures stay as they were. *)
Theorem cam_temp_stored env r c s :
  sizeof_SensData ≤ res r →
  struct_id (report r) = REP_ID_SENSOR_DATA →
  (temp_cam_left (report r) ≠ TEMP_NOT_VALID ∧ env_valid (report r) = ENV_NEW_VAL →
   mLastCamTempData (grab_iteration env r c s).2 =
     {| CAMTEMP.valid := true;
        CAMTEMP.timestamp :=
          fp_to_uint64 (fp_mul (fp_of_int (timestamp (report r))) TS_SCALE);
        CAMTEMP.temp_left := fp_mul (fp_of_int (temp_cam_left (report r))) TEMP_SCALE;
        CAMTEMP.temp_right := fp_mul (fp_of_int (temp_cam_right (report r))) TEMP_SCALE |} ∧
   last (history (grab_iteration env r c s).2) =
     Some (message INFO
             (to_string
                (fp_to_uint64 (fp_mul (fp_of_int (timestamp (report r))) TS_SCALE))))) ∧
  (temp_cam_left (report r) = TEMP_NOT_VALID ∨ env_valid (report r) ≠ ENV_NEW_VAL →
   mLastCamTempData (grab_iteration env r c s).2 =
     CAMTEMP.set_valid false (mLastCamTempData s)).
Proof.
  intros Hsz%full_size Htag%right_tag.
  destruct s as [v reg dev ini stop new running thr imu mag envd cam hist].
  unfold grab_iteration, keep_alive, sendPing, store_samples. exec.
  rewrite Hsz, Htag. split.
  - intros [Hl%Z.eqb_neq He%Z.eqb_eq]. rewrite Hl, He. cbn [negb andb].
    split_tests; (split; [reflexivity|]);
      cbn [history]; apply last_snoc.
  - intros Hcase.
    assert (Hcond : negb (temp_cam_left (report r) =? TEMP_NOT_VALID) &&
                    negb (temp_cam_left (report r) =? TEMP_NOT_VALID) &&
                    (env_valid (report r) =? ENV_NEW_VAL) = false).
    { destruct Hcase as [Hl%Z.eqb_eq|He%Z.eqb_neq].
      - by rewrite Hl.
      - rewrite He. by rewrite andb_false_r. }
    destruct (env_valid (report r) =? ENV_NEW_VAL);
      destruct (temp_cam_left (report r) =? TEMP_NOT_VALID);
      cbn [negb andb] in Hcond |- *; try discriminate Hcond;
      split_tests; reflexivity.
Qed.

End ChannelsMore.

(** ** The queries *)

Lemma map_keys_elem (m : gmap Z Z) k : k ∈ map_keys m ↔ is_Some (m !! k).
Proof.
  unfold map_keys. rewrite merge_sort_Permutation, list_elem_of_fmap. split.
  - intros ([k' v] & -> & Hin). exists v. by apply elem_of_map_to_list.
  - intros [v Hv]. exists (k, v). split; [reflexivity|]. by apply elem_of_map_to_list.
Qed.

Lemma map_keys_NoDup (m : gmap Z Z) : NoDup (map_keys m).
Proof.
  unfold map_keys. rewrite merge_sort_Permutation. apply NoDup_fst_map_to_list.
Qed.

Lemma map_keys_Sorted (m : gmap Z Z) : StronglySorted Z.le (map_keys m).
Proof. unfold map_keys. apply (StronglySorted_merge_sort _). Qed.

Lemma map_keys_head (m : gmap Z Z) :
  m ≠ ∅ → head (map_keys m) = Some (begin_key m).
Proof.
  intros Hne.
  destruct (begin_key_least m Hne) as (pid & Hk & Hmin).
  assert (Hin : begin_key m ∈ map_keys m) by (apply map_keys_elem; eauto).
  pose proof (map_keys_Sorted m) as Hsorted.
  destruct (map_keys m) as [|k0 l] eqn:Hkeys; [by apply elem_of_nil in Hin|].
  cbn [head]. f_equal.
  assert (Hk0 : is_Some (m !! k0)) by (apply map_keys_elem; rewrite Hkeys; by left).
  specialize (Hmin k0 Hk0).
  apply StronglySorted_inv in Hsorted as [_ Hall].
  apply elem_of_cons in Hin as [Heq|Hin]; [done|].
  rewrite Forall_forall in Hall. specialize (Hall _ Hin). lia.
Qed.

Section QueriesMore.
Context `{Firmware}.

(** X18.  [getDeviceList] enumerates only when the registry is empty;
    with [s1] the object once that is done, it returns the serial numbers
    of the registry of [s1], each once, in ascending order, and changes
    nothing else.  The first of them is the serial number that [init]
    without a serial number opens. *)
Theorem getDeviceList_ascending env s s1 :
  (mSlDevPid s ≠ ∅ ∧ s1 = s) ∨
  (mSlDevPid s = ∅ ∧ ∃ n, enumerateDevices env s = (Ret n, s1)) →
  ∃ l, getDeviceList env s = (Ret l, s1) ∧
       StronglySorted Z.le l ∧ NoDup l ∧
       (∀ k, k ∈ l ↔ is_Some (mSlDevPid s1 !! k)) ∧
       (mSlDevPid s1 ≠ ∅ → head l = Some (begin_key (mSlDevPid s1))).
Proof.
  intros Hsel. exists (map_keys (mSlDevPid s1)).
  split; [|split; [apply map_keys_Sorted|split; [apply map_keys_NoDup|split;
    [apply map_keys_elem|apply map_keys_head]]]].
  unfold getDeviceList, mbind, M_bind, get, mret, M_ret.
  destruct Hsel as [[Hne ->]|[Hempty (n & Henum)]].
  - destruct (decide (size (mSlDevPid s) = 0%nat)) as [Hz|Hz];
      [by apply map_size_empty_iff in Hz|reflexivity].
  - destruct (decide (size (mSlDevPid s) = 0%nat)) as [Hz|Hz];
      [|by rewrite map_size_empty_iff in Hz].
    rewrite Henum. reflexivity.
Qed.

(** X19.  [isDataStreamEnabled] answers [true] exactly when there is a
    handle, the transport call did not fail, the answer is at least as
    long as a [SensStreamStatus] record, its first byte is the status tag
    and its second byte is 1; and it prints a warning exactly when, with a
    handle, one of the first three checks fails. *)
Theorem isDataStreamEnabled_true_iff env sz dev reply :
  ((isDataStreamEnabled env sz dev reply).1 = true ↔
   is_Some dev ∧ 0 ≤ reply_res reply ∧ sz ≤ reply_res reply ∧
   reply_id reply = REP_ID_SENSOR_STREAM_STATUS ∧ reply_flag reply = 1) ∧
  ((isDataStreamEnabled env sz dev reply).2 ≠ [] ↔
   is_Some dev ∧
   (reply_res reply < 0 ∨ reply_res reply < sz ∨
    reply_id reply ≠ REP_ID_SENSOR_STREAM_STATUS)).
Proof.
  unfold isDataStreamEnabled. destruct dev as [h|]; cbn [fst snd].
  2: { split; split; [done|by intros [[? [=]] _]|done|by intros [[? [=]] _]]. }
  assert (Hsome : is_Some (Some h)) by eauto.
  destruct (Z.ltb_spec (reply_res reply) 0) as [H0|H0]; cbn [fst snd].
  { split; split;
      [done|intros (_ & ? & _); lia|intros _; split; [done|by left]|done]. }
  destruct (Z.ltb_spec (reply_res reply) sz) as [H1|H1]; cbn [fst snd].
  { split; split;
      [done|intros (_ & _ & ? & _); lia
      |intros _; split; [done|right; by left]|done]. }
  destruct (Z.eqb_spec (reply_id reply) REP_ID_SENSOR_STREAM_STATUS) as [H2|H2];
    cbn [negb fst snd].
  - split; split.
    + intros Hf%Z.eqb_eq. done.
    + intros (_ & _ & _ & _ & ->). reflexivity.
    + done.
    + intros [_ [?|[?|?]]]; [lia|lia|done].
  - split; split;
      [done|intros (_ & _ & _ & ? & _); done
      |intros _; split; [done|right; by right]|done].
Qed.

End QueriesMore.

(** * The statements at concrete inputs *)

#[local] Existing Instance Demo.firmware.

(** C4 as first stated fails: over a list that holds only the serial
    string abc the call ends with [invalid_argument], and the registry,
    which knew camera 1001 before, is empty afterwards. *)
Lemma enumerateDevices_registry_not_kept :
  (enumerateDevices (Demo.good_env [Demo.device 63361 "abc"])
     (Demo.closed {[1001 := 63360]})).1 = Throw invalid_argument ∧
  ¬ (mSlDevPid
       (enumerateDevices (Demo.good_env [Demo.device 63361 "abc"])
          (Demo.closed {[1001 := 63360]})).2 =
     mSlDevPid (Demo.closed {[1001 := 63360]})).
Proof.
  split; [reflexivity|].
  intros Heq. apply (f_equal (λ m : gmap Z Z, m !! 1001)) in Heq.
  vm_compute in Heq. discriminate Heq.
Qed.

Lemma enumerateDevices_malformed_serial_witness :
  (hid_init_result (Demo.good_env Demo.malformed_list) ≠ -1 ∧
   stoi "abc" = inl invalid_argument) ∧
  (enumerateDevices (Demo.good_env Demo.malformed_list)
     (Demo.closed Demo.two_cameras)).1 = Throw invalid_argument ∧
  mSlDevPid
    (enumerateDevices (Demo.good_env Demo.malformed_list)
       (Demo.closed Demo.two_cameras)).2 =
  registry_of [Demo.device 63360 "1001"].
Proof.
  split; [split; [discriminate|reflexivity]|].
  apply (enumerateDevices_malformed_serial
           (Demo.good_env Demo.malformed_list) (Demo.closed Demo.two_cameras)
           [Demo.device 63360 "1001"] (Demo.device 63361 "abc")
           [Demo.device 63362 "1003"] invalid_argument).
  - discriminate.
  - reflexivity.
  - constructor; [exists 1001; reflexivity|constructor].
  - reflexivity.
Defined.

(** C5 as first stated fails: after 400 passes, each on a full sensor-data
    report, [sendPing] has not been entered, while 400 / 400 is 1. *)
Lemma no_ping_in_400_passes :
  ¬ (ping_calls
       (history
          (grabThreadFunc (Demo.good_env [])
             (repeat (Demo.full_read Demo.fresh_frame) 400)
             (Demo.streaming Demo.two_cameras)).2) =
     (ping_calls (history (Demo.streaming Demo.two_cameras)) + 400 / 400)%nat).
Proof. intros Heq. vm_compute in Heq. discriminate Heq. Qed.

Lemma transient_read_keeps_samples_witness :
  (res Demo.short_read < sizeof_SensData) ∧
  ∃ c' s',
    grab_iteration (Demo.good_env []) Demo.short_read 7 Demo.after_fresh_frame =
      (Ret c', s') ∧
    samples s' = samples Demo.after_fresh_frame ∧
    ∀ rest,
      grab_loop (Demo.good_env []) (Demo.short_read :: rest) 7 Demo.after_fresh_frame =
      grab_loop (Demo.good_env []) rest c' s'.
Proof.
  split; [reflexivity|].
  apply (transient_read_keeps_samples (Demo.good_env []) Demo.short_read 7
           Demo.after_fresh_frame).
  right; left. reflexivity.
Defined.

Lemma imu_scaling_witness :
  (sizeof_SensData ≤ res (Demo.full_read Demo.fresh_frame) ∧
   struct_id Demo.fresh_frame = REP_ID_SENSOR_DATA ∧
   imu_not_valid Demo.fresh_frame ≠ 1) ∧
  ∃ c' s',
    grab_iteration (Demo.good_env []) (Demo.full_read Demo.fresh_frame) 0
      (Demo.streaming Demo.two_cameras) = (Ret c', s') ∧
    IMU.aX (mLastIMUData s') = fp_mul (fp_of_int 4096) ACC_SCALE ∧
    IMU.aY (mLastIMUData s') = fp_mul (fp_of_int (-8192)) ACC_SCALE ∧
    IMU.aZ (mLastIMUData s') = fp_mul (fp_of_int 12288) ACC_SCALE ∧
    IMU.gX (mLastIMUData s') = fp_mul (fp_of_int 8) GYRO_SCALE ∧
    IMU.gY (mLastIMUData s') = fp_mul (fp_of_int (-16)) GYRO_SCALE ∧
    IMU.gZ (mLastIMUData s') = fp_mul (fp_of_int 24) GYRO_SCALE ∧
    IMU.temp (mLastIMUData s') = fp_mul (fp_of_int 2550) TEMP_SCALE.
Proof.
  split; [split; [discriminate|split; [reflexivity|discriminate]]|].
  apply (imu_scaling (Demo.good_env []) (Demo.full_read Demo.fresh_frame) 0
           (Demo.streaming Demo.two_cameras)).
  - discriminate.
  - reflexivity.
  - discriminate.
Defined.

Lemma imu_fields_overwritten_witness :
  (sizeof_SensData ≤ res (Demo.full_read (Demo.frame 1 2 2 2500 2600)) ∧
   struct_id (Demo.frame 1 2 2 2500 2600) = REP_ID_SENSOR_DATA) ∧
  ∃ c' s',
    grab_iteration (Demo.good_env []) (Demo.full_read (Demo.frame 1 2 2 2500 2600)) 0
      (Demo.streaming Demo.two_cameras) = (Ret c', s') ∧
    IMU.timestamp (mLastIMUData s') = 62500 ∧
    IMU.aX (mLastIMUData s') = Qmake 4096 4096 ∧
    IMU.valid (mLastIMUData s') = false.
Proof.
  split; [split; [discriminate|reflexivity]|].
  destruct (imu_fields_overwritten (Demo.good_env [])
              (Demo.full_read (Demo.frame 1 2 2 2500 2600)) 0
              (Demo.streaming Demo.two_cameras))
    as (c' & s' & Hrun & Hts & HaX & _ & _ & _ & _ & _ & _ & _ & Hvalid).
  - discriminate.
  - reflexivity.
  - exists c', s'. split; [exact Hrun|]. split; [exact Hts|]. split; [exact HaX|].
    exact (Hvalid eq_refl eq_refl).
Defined.

(** After a report with the codes 1 for both channels, the stored
    magnetometer and environmental samples still carry the code 2 of the
    report before. *)
Lemma status_code_not_stored_witness :
  (sizeof_SensData ≤ res (Demo.full_read (Demo.frame 0 1 1 2500 2600)) ∧
   struct_id (Demo.frame 0 1 1 2500 2600) = REP_ID_SENSOR_DATA ∧
   mag_valid (Demo.frame 0 1 1 2500 2600) ≠ MAG_NEW_VAL ∧
   env_valid (Demo.frame 0 1 1 2500 2600) ≠ ENV_NEW_VAL) ∧
  ∃ c' s',
    grab_iteration (Demo.good_env []) (Demo.full_read (Demo.frame 0 1 1 2500 2600)) 1
      Demo.after_fresh_frame = (Ret c', s') ∧
    MAG.valid (mLastMAGData s') = 2 ∧
    ENV.valid (mLastENVData s') = 2.
Proof.
  split; [repeat split; discriminate|].
  destruct (status_code_not_stored (Demo.good_env [])
              (Demo.full_read (Demo.frame 0 1 1 2500 2600)) 1
              Demo.after_fresh_frame)
    as (c' & s' & Hrun & Hmag & Henv).
  - discriminate.
  - reflexivity.
  - exists c', s'. split; [exact Hrun|]. split.
    + rewrite Hmag by discriminate. reflexivity.
    + destruct Henv as [-> _]; [discriminate|reflexivity].
Defined.

(** A report whose right camera temperature is the "not valid" value,
    with a good left temperature and a fresh environmental sample, makes
    the stored camera-temperature sample valid. *)
Lemma cam_temp_valid_ignores_right_witness :
  (sizeof_SensData ≤ res (Demo.full_read (Demo.frame 0 2 2 2500 TEMP_NOT_VALID)) ∧
   struct_id (Demo.frame 0 2 2 2500 TEMP_NOT_VALID) = REP_ID_SENSOR_DATA) ∧
  ∃ c' s',
    grab_iteration (Demo.good_env [])
      (Demo.full_read (Demo.frame 0 2 2 2500 TEMP_NOT_VALID)) 0
      (Demo.streaming Demo.two_cameras) = (Ret c', s') ∧
    CAMTEMP.valid (mLastCamTempData s') = true.
Proof.
  split; [split; [discriminate|reflexivity]|].
  apply (cam_temp_valid_ignores_right (Demo.good_env [])
           (Demo.full_read (Demo.frame 0 2 2 2500 TEMP_NOT_VALID)) 0
           (Demo.streaming Demo.two_cameras)).
  - discriminate.
  - reflexivity.
Defined.

(** The transport opens camera 1001 and then refuses every feature
    report: [init(1001)] returns [true]. *)
Lemma init_true_when_enable_fails_witness :
  (1001 ≠ -1 ∧
   hid_send_feature_result (Demo.deaf_env []) [REP_ID_SENSOR_STREAM_STATUS; 1] < 0) ∧
  (init (Demo.deaf_env []) 1001 (Demo.closed Demo.two_cameras)).1 = Ret true ∧
  mInitialized (init (Demo.deaf_env []) 1001 (Demo.closed Demo.two_cameras)).2 = false ∧
  mDevHandle (init (Demo.deaf_env []) 1001 (Demo.closed Demo.two_cameras)).2 =
    Some 1%positive ∧
  mGrabThread (init (Demo.deaf_env []) 1001 (Demo.closed Demo.two_cameras)).2 = false.
Proof.
  split; [split; [discriminate|reflexivity]|].
  apply (init_true_when_enable_fails (Demo.deaf_env []) 1001
           (Demo.closed Demo.two_cameras) 1%positive).
  - discriminate.
  - reflexivity.
  - reflexivity.
Defined.

(** With the cameras 1001 and 1002 in the registry, [init(-1)] asks the
    transport for camera 1001. *)
Lemma init_absent_serial_witness :
  mSlDevPid (Demo.closed Demo.two_cameras) ≠ ∅ ∧
  ∃ rest,
    history (init (Demo.good_env []) (-1) (Demo.closed Demo.two_cameras)).2 =
    hid_open_call SL_USB_VENDOR 63360 "1001" :: rest.
Proof.
  assert (Hne : mSlDevPid (Demo.closed Demo.two_cameras) ≠ ∅).
  { intros Heq. apply (f_equal (λ m : gmap Z Z, m !! 1001)) in Heq.
    vm_compute in Heq. discriminate Heq. }
  split; [exact Hne|].
  destruct (init_absent_serial (Demo.good_env [])
              (Demo.closed Demo.two_cameras) (Demo.closed Demo.two_cameras)
              (or_introl (conj Hne eq_refl)))
    as [_ Hopen].
  destruct (Hopen Hne) as (k & pid & Hk & Hmin & _ & [rest Hhist] & _).
  assert (Hk1 : k ≤ 1001) by (apply Hmin; exists 63360; reflexivity).
  assert (Hk2 : k = 1001 ∨ k = 1002).
  { destruct (decide (k = 1001)) as [|Hn1]; [by left|].
    destruct (decide (k = 1002)) as [|Hn2]; [by right|].
    exfalso. revert Hk. cbn [Demo.closed mSlDevPid]. unfold Demo.two_cameras.
    rewrite lookup_insert_ne by done. rewrite lookup_insert_ne by done.
    rewrite lookup_empty. discriminate. }
  destruct Hk2 as [->| ->]; [|lia].
  assert (pid = 63360) as -> by (vm_compute in Hk; congruence).
  exists rest. exact Hhist.
Defined.

(** ** Runs of the model *)

Example stoi_digits : stoi "1001" = inr 1001.
Proof. reflexivity. Qed.

Example stoi_letters : stoi "abc" = inl invalid_argument.
Proof. reflexivity. Qed.

Example stoi_numeric_prefix : stoi " -12abc" = inr (-12).
Proof. reflexivity. Qed.

Example stoi_too_large : stoi "2147483648" = inl out_of_range.
Proof. reflexivity. Qed.

(** A read that times out leaves the samples of the frame before. *)
Example timeout_keeps_samples :
  samples
    (grab_iteration (Demo.good_env []) Demo.timeout_read 1 Demo.after_fresh_frame).2 =
  samples Demo.after_fresh_frame.
Proof. vm_compute. reflexivity. Qed.

(** The first ping is sent in pass 401. *)
Example first_ping_in_pass_401 :
  ping_calls
    (history
       (grabThreadFunc (Demo.good_env [])
          (repeat (Demo.full_read Demo.fresh_frame) 401)
          (Demo.streaming Demo.two_cameras)).2) = 1%nat.
Proof. vm_compute. reflexivity. Qed.

(** Closing a streaming session: the thread is joined, the stream is
    switched off and the handle is closed; closing again does nothing. *)
Example reset_streaming :
  history (reset (Demo.good_env []) (Demo.streaming Demo.two_cameras)).2 =
    [thread_join;
     hid_send_feature_report_call 1%positive [REP_ID_SENSOR_STREAM_STATUS; 0];
     hid_close_call 1%positive;
     message INFO "Device closed"] ∧
  history
    (reset (Demo.good_env [])
       (reset (Demo.good_env []) (Demo.streaming Demo.two_cameras)).2).2 =
  history (reset (Demo.good_env []) (Demo.streaming Demo.two_cameras)).2.
Proof. split; vm_compute; reflexivity. Qed.

(** Opening without a serial number on an empty registry enumerates and
    takes the camera with the least serial number. *)
Example init_enumerates_and_opens_lowest :
  history
    (init (Demo.good_env [Demo.device 63361 "1002"; Demo.device 63360 "1001"])
       (-1) (Demo.closed ∅)).2 =
  [hid_init_call; hid_enumerate_call SL_USB_VENDOR 0; hid_free_enumeration_call;
   hid_open_call SL_USB_VENDOR 63360 "1001";
   hid_send_feature_report_call 1%positive [REP_ID_SENSOR_STREAM_STATUS; 1];
   thread_start].
Proof. vm_compute. reflexivity. Qed.

(** ** The further properties at concrete inputs *)

Lemma enumerateDevices_replaces_registry_witness :
  hid_init_result (Demo.good_env Demo.two_devices) ≠ -1 ∧
  (enumerateDevices (Demo.good_env Demo.two_devices)
     (Demo.closed {[5 := 5]})).1 = Ret 2 ∧
  mSlDevPid
    (enumerateDevices (Demo.good_env Demo.two_devices) (Demo.closed {[5 := 5]})).2 =
  registry_of Demo.two_devices.
Proof.
  split; [discriminate|].
  destruct (enumerateDevices_replaces_registry
              (Demo.good_env Demo.two_devices) (Demo.closed {[5 := 5]}))
    as (Hret & Hreg & _).
  - discriminate.
  - repeat constructor; eexists; reflexivity.
  - discriminate.
  - split; [exact Hret|exact Hreg].
Defined.

Lemma enumerateDevices_entries_from_list_witness :
  INT_MIN ≤ 1001 ≤ INT_MAX ∧
  ∃ d, d ∈ hid_devices (Demo.good_env Demo.malformed_list) ∧
       stoi (serial_number d) = inr 1001 ∧ product_id d = 63360.
Proof.
  apply (enumerateDevices_entries_from_list (Demo.good_env Demo.malformed_list)
           (Demo.closed Demo.two_cameras) 1001 63360).
  vm_compute. reflexivity.
Defined.

Lemma enumerateDevices_last_entry_wins_witness :
  stoi "7abc" = inr 7 ∧
  mSlDevPid
    (enumerateDevices (Demo.good_env Demo.colliding_list) (Demo.closed ∅)).2 !! 7 =
  Some 63361.
Proof.
  split; [reflexivity|].
  apply (enumerateDevices_last_entry_wins (Demo.good_env Demo.colliding_list)
           (Demo.closed ∅) [Demo.device 63360 "7"] (Demo.device 63361 "7abc")
           [Demo.device 63362 "8"] 7).
  - discriminate.
  - reflexivity.
  - repeat constructor; eexists; reflexivity.
  - reflexivity.
  - repeat constructor. discriminate.
Defined.

Lemma stoi_to_string_witness :
  INT_MIN ≤ -2147483648 ≤ INT_MAX ∧
  stoi (to_string (-2147483648)) = inr (-2147483648).
Proof.
  assert (Hrange : INT_MIN ≤ -2147483648 ≤ INT_MAX) by (split; discriminate).
  split; [exact Hrange|]. exact (stoi_to_string (-2147483648) Hrange).
Defined.

Lemma stoi_ignores_tail_witness :
  stoi "12" = inr 12 ∧ stoi ("12" +:+ String "a" "bc") = inr 12.
Proof.
  split; [reflexivity|].
  apply (stoi_ignores_tail "12" "a" "bc" 12); reflexivity.
Defined.

Lemma init_unknown_serial_witness :
  mSlDevPid (Demo.closed Demo.two_cameras) !! 5 = None ∧
  mSlDevPid (init (Demo.good_env []) 5 (Demo.closed Demo.two_cameras)).2 =
    <[5 := 0]> Demo.two_cameras ∧
  ∃ rest,
    history (init (Demo.good_env []) 5 (Demo.closed Demo.two_cameras)).2 =
    history (Demo.closed Demo.two_cameras) ++
    hid_open_call SL_USB_VENDOR 0 (to_string 5) :: rest.
Proof.
  split; [reflexivity|].
  apply (init_unknown_serial (Demo.good_env []) 5 (Demo.closed Demo.two_cameras)).
  - discriminate.
  - reflexivity.
Defined.

Lemma init_open_failure_witness :
  hid_open_result Demo.absent_env 63360 "1001" = None ∧
  (init Demo.absent_env 1001 (Demo.closed Demo.two_cameras)).1 = Ret false.
Proof.
  split; [reflexivity|].
  rewrite (init_open_failure Demo.absent_env 1001 (Demo.closed Demo.two_cameras)).
  - reflexivity.
  - discriminate.
  - reflexivity.
Defined.

Lemma init_success_witness :
  mGrabThread (Demo.closed Demo.two_cameras) = false ∧
  (init (Demo.good_env []) 1001 (Demo.closed Demo.two_cameras)).1 = Ret true ∧
  mInitialized (init (Demo.good_env []) 1001 (Demo.closed Demo.two_cameras)).2 = true ∧
  mGrabThread (init (Demo.good_env []) 1001 (Demo.closed Demo.two_cameras)).2 = true.
Proof.
  split; [reflexivity|].
  destruct (init_success (Demo.good_env []) 1001 (Demo.closed Demo.two_cameras)
              1%positive)
    as (Hret & _ & Hini & Hthr & _).
  - discriminate.
  - reflexivity.
  - discriminate.
  - reflexivity.
  - split; [exact Hret|]. split; [exact Hini|exact Hthr].
Defined.

Lemma init_while_streaming_terminates_witness :
  mGrabThread (Demo.streaming Demo.two_cameras) = true ∧
  (init (Demo.good_env []) 1001 (Demo.streaming Demo.two_cameras)).1 = Terminate.
Proof.
  split; [reflexivity|].
  apply (init_while_streaming_terminates (Demo.good_env []) 1001
           (Demo.streaming Demo.two_cameras) 1%positive).
  - discriminate.
  - reflexivity.
  - discriminate.
  - reflexivity.
Defined.

Lemma init_enumeration_throws_witness :
  (enumerateDevices (Demo.good_env Demo.malformed_list) (Demo.closed ∅)).1 =
    Throw invalid_argument ∧
  (init (Demo.good_env Demo.malformed_list) (-1) (Demo.closed ∅)).1 =
    Throw invalid_argument.
Proof.
  split; [reflexivity|].
  rewrite (init_enumeration_throws (Demo.good_env Demo.malformed_list)
             (Demo.closed ∅) invalid_argument); reflexivity.
Defined.

Lemma ping_counter_bounded_witness :
  0 ≤ 400 ≤ 400 ∧
  ∃ c', (grab_loop (Demo.good_env [])
           [Demo.timeout_read; Demo.full_read Demo.fresh_frame] 400
           (Demo.streaming Demo.two_cameras)).1 = Ret c' ∧
        0 ≤ c' ≤ 400.
Proof.
  assert (Hc : 0 ≤ 400 ≤ 400) by (split; discriminate).
  split; [exact Hc|].
  destruct (ping_counter_bounded (Demo.good_env [])
              [Demo.timeout_read; Demo.full_read Demo.fresh_frame] 400
              (Demo.streaming Demo.two_cameras) Hc) as (c' & Hrun & Hb & _).
  exists c'. split; [exact Hrun|exact Hb].
Defined.

Lemma transient_reads_keep_samples_witness :
  Forall transient [Demo.timeout_read; Demo.short_read] ∧
  samples
    (grab_loop (Demo.good_env []) [Demo.timeout_read; Demo.short_read] 1
       Demo.after_fresh_frame).2 =
  samples Demo.after_fresh_frame.
Proof.
  assert (Hall : Forall transient [Demo.timeout_read; Demo.short_read])
    by (repeat constructor; left; reflexivity).
  split; [exact Hall|].
  exact (transient_reads_keep_samples (Demo.good_env [])
           [Demo.timeout_read; Demo.short_read] 1 Demo.after_fresh_frame Hall).
Defined.

Lemma last_full_report_decides_imu_witness :
  Forall transient [Demo.short_read] ∧
  mLastIMUData
    (grab_loop (Demo.good_env [])
       ([Demo.timeout_read] ++ Demo.full_read (Demo.frame 0 1 2 2500 2600) ::
        [Demo.short_read])
       0 Demo.after_fresh_frame).2 =
  imu_of_report (Demo.frame 0 1 2 2500 2600).
Proof.
  assert (Hall : Forall transient [Demo.short_read])
    by (repeat constructor; left; reflexivity).
  split; [exact Hall|].
  apply (last_full_report_decides_imu (Demo.good_env []) [Demo.timeout_read]
           (Demo.full_read (Demo.frame 0 1 2 2500 2600)) [Demo.short_read]
           0 Demo.after_fresh_frame).
  - discriminate.
  - reflexivity.
  - exact Hall.
Defined.

Lemma fresh_channels_stored_witness :
  (mag_valid Demo.fresh_frame = MAG_NEW_VAL ∧
   env_valid Demo.fresh_frame = ENV_NEW_VAL) ∧
  MAG.mX
    (mLastMAGData
       (grab_iteration (Demo.good_env []) (Demo.full_read Demo.fresh_frame) 0
          (Demo.streaming Demo.two_cameras)).2) =
    fp_mul (fp_of_int 16) MAG_SCALE ∧
  ENV.press
    (mLastENVData
       (grab_iteration (Demo.good_env []) (Demo.full_read Demo.fresh_frame) 0
          (Demo.streaming Demo.two_cameras)).2) =
    fp_mul (fp_of_int 10132500) PRESS_SCALE_NEW.
Proof.
  split; [split; reflexivity|].
  destruct (fresh_channels_stored (Demo.good_env [])
              (Demo.full_read Demo.fresh_frame) 0
              (Demo.streaming Demo.two_cameras)) as [Hmag Henv].
  - discriminate.
  - reflexivity.
  - rewrite (Hmag eq_refl), (Henv eq_refl). split; reflexivity.
Defined.

Lemma cam_temp_stored_witness :
  (temp_cam_left Demo.fresh_frame ≠ TEMP_NOT_VALID ∧
   env_valid Demo.fresh_frame = ENV_NEW_VAL) ∧
  CAMTEMP.temp_right
    (mLastCamTempData
       (grab_iteration (Demo.good_env []) (Demo.full_read Demo.fresh_frame) 0
          (Demo.streaming Demo.two_cameras)).2) =
    fp_mul (fp_of_int 2600) TEMP_SCALE.
Proof.
  assert (Hcond : temp_cam_left Demo.fresh_frame ≠ TEMP_NOT_VALID ∧
                  env_valid Demo.fresh_frame = ENV_NEW_VAL)
    by (split; [discriminate|reflexivity]).
  split; [exact Hcond|].
  destruct (cam_temp_stored (Demo.good_env [])
              (Demo.full_read Demo.fresh_frame) 0
              (Demo.streaming Demo.two_cameras)) as [Hvalid _].
  - discriminate.
  - reflexivity.
  - destruct (Hvalid Hcond) as [-> _]. reflexivity.
Defined.

Lemma getDeviceList_ascending_witness :
  mSlDevPid (Demo.closed Demo.two_cameras) ≠ ∅ ∧
  ∃ l, getDeviceList (Demo.good_env []) (Demo.closed Demo.two_cameras) =
         (Ret l, Demo.closed Demo.two_cameras) ∧
       StronglySorted Z.le l ∧ NoDup l.
Proof.
  assert (Hne : mSlDevPid (Demo.closed Demo.two_cameras) ≠ ∅).
  { intros Heq. apply (f_equal (λ m : gmap Z Z, m !! 1001)) in Heq.
    vm_compute in Heq. discriminate Heq. }
  split; [exact Hne|].
  destruct (getDeviceList_ascending (Demo.good_env [])
              (Demo.closed Demo.two_cameras) (Demo.closed Demo.two_cameras)
              (or_introl (conj Hne eq_refl)))
    as (l & Hrun & Hsorted & Hnodup & _).
  exists l. split; [exact Hrun|]. split; [exact Hsorted|exact Hnodup].
Defined.

(** The serial numbers as [getDeviceList] lists them. *)
Example getDeviceList_two_cameras :
  (getDeviceList (Demo.good_env []) (Demo.closed Demo.two_cameras)).1 =
  Ret [1001; 1002].
Proof. vm_compute. reflexivity. Qed.

(** ** Revisited statements at concrete inputs *)

(** C6 as first stated fails: with an empty registry and a device list
    whose second serial string is abc, [init] without a serial number
    leaves by [invalid_argument].  Camera 1001 is in the registry by then,
    yet no handle has been asked for, and [init] has not returned
    [false] either. *)
Lemma init_absent_serial_malformed_list :
  (init (Demo.good_env Demo.malformed_list) (-1) (Demo.closed ∅)).1 =
    Throw invalid_argument ∧
  mSlDevPid (init (Demo.good_env Demo.malformed_list) (-1) (Demo.closed ∅)).2
    !! 1001 = Some 63360 ∧
  history (init (Demo.good_env Demo.malformed_list) (-1) (Demo.closed ∅)).2 =
    [hid_init_call; hid_enumerate_call SL_USB_VENDOR 0].
Proof. vm_compute. repeat split. Qed.

(** A report that declares the IMU data not valid, with both other
    channels stale at code 1, leaves the IMU sample marked valid. *)
Lemma imu_valid_takes_magnetometer_code_witness :
  (imu_not_valid (Demo.frame 1 1 1 2500 2600) = 1 ∧
   mag_valid (Demo.frame 1 1 1 2500 2600) ≠ MAG_NEW_VAL) ∧
  ∃ c' s',
    grab_iteration (Demo.good_env []) (Demo.full_read (Demo.frame 1 1 1 2500 2600)) 0
      (Demo.streaming Demo.two_cameras) = (Ret c', s') ∧
    IMU.valid (mLastIMUData s') = true ∧
    IMU.timestamp (mLastIMUData s') = 62500.
Proof.
  split; [split; [reflexivity|discriminate]|].
  destruct (imu_valid_takes_magnetometer_code (Demo.good_env [])
              (Demo.full_read (Demo.frame 1 1 1 2500 2600)) 0
              (Demo.streaming Demo.two_cameras))
    as (c' & s' & Hrun & Hvalid & Hts & _).
  - discriminate.
  - reflexivity.
  - left. discriminate.
  - exists c', s'. split; [exact Hrun|]. split; [exact Hvalid|exact Hts].
Defined.
